(** * A shallow embedding of the openapi gateway (src/openapi/api.py)

    The gateway exposes REST routes over full-node RPC backends.  The
    routes are embedded as functions in a small state-and-exception monad:
    the state records the RPC calls issued, the log lines written and the
    response cache; Python exceptions are the left summand of the result. *)

From Stdlib Require Import ZArith Lia Ascii String.
From Stdlib Require Strings.Byte.
From stdpp Require Import base option list strings gmap pretty.

Local Open Scope Z_scope.
Local Open Scope string_scope.
Set Warnings "-register-all".

(** ** Data *)

(** Python [bytes]. *)
Abbreviation bytes := (list Byte.byte).

#[global] Instance byte_eq_dec : EqDecision Byte.byte := Byte.byte_eq_dec.

(** JSON values as Python sees them after [json.loads]: a dict is kept as an
    association list, in insertion order. *)
Inductive json :=
| JNull
| JBool (b : bool)
| JInt (n : Z)
| JStr (s : string)
| JList (l : list json)
| JDict (kv : list (string * json)).

(** The exceptions the routes raise, catch or let through.  Every one of them
    is a subclass of Python's [Exception]. *)
Inductive exn :=
| HTTPException (status_code : Z) (detail : string)
| ValueError (msg : string)
| KeyError (key : string)
| RpcError (msg : string)
| MalformedEncoding
| NotASingleton
| NotAnNFT
| UnsupportedNFTVersion
| UnrecognizedPuzzleLayer.

(** The ["coin"] entry of a coin record, as the RPC backend returns it. *)
Record CoinJson := {
  cj_parent_coin_info : string;
  cj_puzzle_hash : string;
  cj_amount : Z }.

(** A coin record of the RPC backend: the fields the routes read. *)
Record CoinRecord := {
  coin : CoinJson;
  spent : bool;
  confirmed_block_index : Z }.

(** The answer of [get_puzzle_and_solution]: two hex strings. *)
Record CoinSpend := {
  puzzle_reveal : string;
  solution : string }.

(** The answer of [push_tx]: the field the route reads. *)
Record PushTxResp := {
  status : json }.

(** [class UTXO(BaseModel)]. *)
Record UTXO := {
  parent_coin_info : string;
  puzzle_hash : string;
  amount : string }.

(** ** The RPC client and the chains *)

(** One RPC request, as recorded in the trace of the world. *)
Inductive RpcCall :=
| Call_get_coin_records_by_puzzle_hash (puzzle_hash : bytes) (include_spent_coins : bool)
| Call_get_coin_records_by_hint (hint : bytes) (include_spent_coins : bool) (start_height : Z)
| Call_get_puzzle_and_solution (coin_id : bytes) (height : Z)
| Call_push_tx (spend_bundle : json)
| Call_raw_fetch (method : string) (params : option json).

(** [FullNodeRpcClient]: what the backend answers to each request. *)
Record FullNodeRpcClient := {
  get_coin_records_by_puzzle_hash : bytes -> bool -> exn + list CoinRecord;
  get_coin_records_by_hint : bytes -> bool -> Z -> exn + list CoinRecord;
  get_puzzle_and_solution : bytes -> Z -> exn + CoinSpend;
  push_tx : json -> exn + PushTxResp;
  raw_fetch : string -> option json -> exn + json }.

(** [@dataclass class Chain]. *)
Record Chain := {
  id : string;
  network_name : string;
  network_prefix : string;
  client : FullNodeRpcClient }.

(** What a route hands back to the framework (and what the cache stores). *)
Inductive pyval :=
| VUtxos (data : list UTXO)
| VBalance (amount : Z)
| VNfts (data : list json)
| VJson (j : json).

(** ** The world and the monad *)

(** One [logger] call: the level, the format string and its arguments. *)
Inductive logarg :=
| LJson (j : json)
| LExn (e : exn).

Record LogRecord := {
  level : string;
  fmt : string;
  args : list logarg }.

Record World := {
  rpc_trace : list (string * RpcCall);
  log : list LogRecord;
  cache : gmap string (pyval * Z) }.

Definition M (A : Type) : Type := World -> (exn + A) * World.

Definition ret {A} (a : A) : M A := fun w => (inr a, w).
Definition raise {A} (e : exn) : M A := fun w => (inl e, w).
Definition bind {A B} (m : M A) (k : A -> M B) : M B :=
  fun w => match m w with
           | (inl e, w') => (inl e, w')
           | (inr a, w') => k a w'
           end.
Definition lift {A} (r : exn + A) : M A := fun w => (r, w).

Notation "x <- m ;; k" := (bind m (fun x => k))
  (at level 100, m at next level, right associativity).

(** [await chain.client.<method>(...)]: the request goes into the trace and the
    backend's answer (or its error) comes back. *)
Definition await_rpc {A} (chain : Chain) (c : RpcCall) (answer : exn + A) : M A :=
  fun w => (answer,
            {| rpc_trace := rpc_trace w ++ [(id chain, c)];
               log := log w; cache := cache w |}).

(** [logger.warning(fmt, args...)]. *)
Definition logger_warning (fmt : string) (args : list logarg) : M unit :=
  fun w => (inr tt,
            {| rpc_trace := rpc_trace w;
               log := log w ++ [{| level := "warning"; fmt := fmt; args := args |}];
               cache := cache w |}).

(** [asyncio.gather] over a list of awaitables, without [return_exceptions]:
    every awaitable is started; the answers come back in the order of the
    arguments, and an exception of one of them is raised to the awaiting
    caller.  (When several fail, the model raises the one that is first in
    argument order.) *)
Fixpoint gather {A} (aws : list (M A)) : M (list A) :=
  match aws with
  | [] => ret []
  | aw :: aws' =>
      fun w => match aw w with
               | (inl e, w') => (inl e, snd (gather aws' w'))
               | (inr a, w') =>
                   match gather aws' w' with
                   | (inl e, w'') => (inl e, w'')
                   | (inr l, w'') => (inr (a :: l), w'')
                   end
               end
  end.

(** [str(n)] on a Python [int]. *)
Definition str (n : Z) : string := pretty n.

(** [b.hex()] on Python [bytes]: two lower-case hexadecimal digits a byte. *)
Definition hex_digit (n : N) : ascii :=
  match String.get (N.to_nat n) "0123456789abcdef" with
  | Some c => c
  | None => "0"%char
  end.

Fixpoint bytes_hex (b : bytes) : string :=
  match b with
  | [] => ""
  | x :: b' =>
      String (hex_digit (Byte.to_N x / 16))
        (String (hex_digit (Byte.to_N x mod 16)) (bytes_hex b'))
  end.

(** ** Programs, coins and NFT records (the modules [.types] and [.nft]) *)

(** Modelled from the spec: the cons-pair tree of section 3 ([.types.Program]
    is not among the sources): a node is an atom, an immutable byte sequence,
    or a pair of two programs. *)
Inductive Program :=
| Atom (a : bytes)
| Pair (first rest : Program).

(** Modelled from the spec: the [Coin] of section 3 ([.types.Coin] is not among
    the sources). *)
Record Coin := {
  coin_parent_coin_info : bytes;
  coin_puzzle_hash : bytes;
  coin_amount : Z }.

(** Modelled from the spec: the [NFTInfo] of section 3 ([.nft] is not among the
    sources).  The route reads [owner] only, and compares it with a hex
    string. *)
Record NFTInfo := {
  launcher_id : string;
  owner : string;
  current_owner_did : option string;
  metadata_uris : list string;
  metadata_hash : string;
  license_uris : list string;
  royalty_address : string;
  royalty_percentage : Z;
  transfer_program_hash : string }.

(** Sequencing of plain results, for the code between two [await]s. *)
Definition and_then {A B} (r : exn + A) (k : A -> exn + B) : exn + B :=
  match r with
  | inl e => inl e
  | inr a => k a
  end.

Notation "'let?' x := r 'in' k" := (and_then r (fun x => k))
  (at level 10, x name, r at level 100, k at level 200).

(** A list comprehension whose element expression can raise. *)
Fixpoint comprehension {A B} (f : A -> exn + B) (l : list A) : exn + list B :=
  match l with
  | [] => inr []
  | a :: l' =>
      let? b := f a in
      let? bs := comprehension f l' in
      inr (b :: bs)
  end.

(** ** The routes *)

(** The keyword arguments the framework calls a route with; the key builders
    of the cache decorator receive them. *)
Record Kwargs := {
  kw_address : string;
  kw_chain : Chain }.

(** What api.py imports from the rest of the package ([.utils],
    [.utils.bech32m], [.nft], [.types]) and from [config.py]; none of them is
    among the sources, so the routes are stated over any implementation. *)
Class Package := {
  decode_puzzle_hash : string -> exn + (string * bytes);
  hexstr_to_bytes : string -> exn + bytes;
  Coin_from_json_dict : CoinJson -> exn + Coin;
  Program_fromhex : string -> exn + Program;
  get_nft_info : Coin -> Program -> Program -> exn + NFTInfo;
  NFTInfo_to_dict : NFTInfo -> json;
  settings_RPC_METHOD_WHITE_LIST : list string;
  settings_NFT_CHAIN_START_HEIGHT : gmap string Z }.

Section Api.

Context {package : Package}.

(** [app.state.chains]. *)
Variable chains : gmap string Chain.

Definition RPC_METHOD_WHITE_LIST : gset string :=
  list_to_set settings_RPC_METHOD_WHITE_LIST.

Definition decode_address (address prefix : string) : exn + bytes :=
  let body :=
    let? decoded := decode_puzzle_hash address in
    let (_prefix, puzzle_hash) := decoded : string * bytes in
    if decide (_prefix <> prefix) then inl (ValueError "wrong prefix")
    else inr puzzle_hash in
  match body with
  | inl (ValueError _) => inl (HTTPException 400 "Invalid Address")
  | r => r
  end.

Definition get_chain (chain : string) : M Chain :=
  match chains !! chain with
  | None => raise (HTTPException 400 "Ivalid Chain")
  | Some c => ret c
  end.

Definition coin_javascript_compat (coin : CoinJson) : UTXO :=
  {| parent_coin_info := cj_parent_coin_info coin;
     puzzle_hash := cj_puzzle_hash coin;
     amount := str (cj_amount coin) |}.

(** The [for] loop of [get_utxos]. *)
Fixpoint get_utxos_loop (coin_records : list CoinRecord) (data : list UTXO) : list UTXO :=
  match coin_records with
  | [] => data
  | row :: rows =>
      if spent row then get_utxos_loop rows data
      else get_utxos_loop rows (data ++ [coin_javascript_compat (coin row)])
  end.

Definition get_utxos (address : string) (chain : Chain) : M pyval :=
  pzh <- lift (decode_address address (network_prefix chain)) ;;
  coin_records <- await_rpc chain
    (Call_get_coin_records_by_puzzle_hash pzh false)
    (get_coin_records_by_puzzle_hash (client chain) pzh false) ;;
  ret (VUtxos (get_utxos_loop coin_records [])).

(** [sum] over a list of Python [int]s. *)
Definition sum (l : list Z) : Z := foldl Z.add 0 l.

Definition query_balance (address : string) (chain : Chain) : M pyval :=
  puzzle_hash <- lift (decode_address address (network_prefix chain)) ;;
  coin_records <- await_rpc chain
    (Call_get_coin_records_by_puzzle_hash puzzle_hash false)
    (get_coin_records_by_puzzle_hash (client chain) puzzle_hash false) ;;
  let amount :=
    sum (map (fun c => cj_amount (coin c))
             (filter (fun c => spent c = false) coin_records)) in
  ret (VBalance amount).

Definition create_transaction (spend_bundle : json) (chain : Chain) : M pyval :=
  let spb := spend_bundle in
  fun w =>
    match await_rpc chain (Call_push_tx spb) (push_tx (client chain) spb) w with
    | (inl (ValueError e), w') =>
        (_ <- logger_warning "sendtx: %s, error: %r" [LJson spb; LExn (ValueError e)] ;;
         raise (HTTPException 400 e)) w'
    | (inl e, w') => (inl e, w')
    | (inr resp, w') => (inr (VJson (JDict [("status", status resp)])), w')
    end.

Definition full_node_rpc (method : string) (params : option json) (chain : Chain) : M pyval :=
  if decide (method ∉ RPC_METHOD_WHITE_LIST) then
    raise (HTTPException 400 ("unspport chia rpc method: " ++ method))
  else
    r <- await_rpc chain (Call_raw_fetch method params)
           (raw_fetch (client chain) method params) ;;
    ret (VJson r).

(** The [for] loop of [list_nfts], over [zip(coin_records, pz_and_solutions)]. *)
Fixpoint list_nfts_loop (puzzle_hash : bytes) (rows : list (CoinRecord * CoinSpend))
    (data : list json) : exn + list json :=
  match rows with
  | [] => inr data
  | (coin_record, cs) :: rows' =>
      let? nft_coin := Coin_from_json_dict (coin coin_record) in
      let? puzzle := Program_fromhex (puzzle_reveal cs) in
      let? solution := Program_fromhex (solution cs) in
      match get_nft_info nft_coin puzzle solution with
      | inl e => list_nfts_loop puzzle_hash rows' data
      | inr nft_info =>
          if decide (owner nft_info <> bytes_hex puzzle_hash) then
            list_nfts_loop puzzle_hash rows' data
          else
            let nft_info_dict := NFTInfo_to_dict nft_info in
            list_nfts_loop puzzle_hash rows' (data ++ [nft_info_dict])
      end
  end.

(** The element of the list comprehension handed to [asyncio.gather]: the
    argument [hexstr_to_bytes(...)] is evaluated when the list is built, the
    request is issued when the awaitable runs. *)
Definition puzzle_and_solution_call (chain : Chain) (cr : CoinRecord) : exn + M CoinSpend :=
  let? coin_id := hexstr_to_bytes (cj_parent_coin_info (coin cr)) in
  inr (await_rpc chain
         (Call_get_puzzle_and_solution coin_id (confirmed_block_index cr))
         (get_puzzle_and_solution (client chain) coin_id (confirmed_block_index cr))).

Definition list_nfts (address : string) (chain : Chain) : M pyval :=
  puzzle_hash <- lift (decode_address address (network_prefix chain)) ;;
  start_height <- lift
    (match settings_NFT_CHAIN_START_HEIGHT !! network_name chain with
     | Some h => inr h
     | None => inl (KeyError (network_name chain))
     end) ;;
  coin_records <- await_rpc chain
    (Call_get_coin_records_by_hint puzzle_hash false start_height)
    (get_coin_records_by_hint (client chain) puzzle_hash false start_height) ;;
  calls <- lift (comprehension (puzzle_and_solution_call chain) coin_records) ;;
  pz_and_solutions <- gather calls ;;
  data <- lift (list_nfts_loop puzzle_hash (zip coin_records pz_and_solutions) []) ;;
  ret (VNfts data).

(** *** The cache decorator *)

(** [@cached(ttl, key_builder, alias)] around a route: a live entry under
    the key is returned as it is and the route does not run; otherwise the
    route runs, and its answer is stored under the key for [ttl] seconds.
    A route that raises stores nothing. *)
Definition cached (ttl : Z) (key_builder : Kwargs -> string)
    (f : string -> Chain -> M pyval) (now : Z) (kwargs : Kwargs) : M pyval :=
  let key := key_builder kwargs in
  fun w =>
    let miss :=
      match f (kw_address kwargs) (kw_chain kwargs) w with
      | (inl e, w') => (inl e, w')
      | (inr v, w') =>
          (inr v, {| rpc_trace := rpc_trace w'; log := log w';
                     cache := <[key := (v, now + ttl)]> (cache w') |})
      end in
    match cache w !! key with
    | Some (v, expires) => if decide (now < expires) then (inr v, w) else miss
    | None => miss
    end.

Definition utxos_key_builder (kwargs : Kwargs) : string := "utxos:" ++ kw_address kwargs.
Definition balance_key_builder (kwargs : Kwargs) : string := "balance:" ++ kw_address kwargs.
Definition nfts_key_builder (kwargs : Kwargs) : string := "nfts:" ++ kw_address kwargs.

Definition utxos_ttl : Z := 10.
Definition balance_ttl : Z := 10.
Definition nfts_ttl : Z := 20.

(** The routes as the framework serves them: [Depends(get_chain)] resolves
    the [chain] query parameter first, then the decorated function is called
    with the keyword arguments. *)
Definition route_utxos (now : Z) (address chain : string) : M pyval :=
  c <- get_chain chain ;;
  cached utxos_ttl utxos_key_builder get_utxos now {| kw_address := address; kw_chain := c |}.

Definition route_balance (now : Z) (address chain : string) : M pyval :=
  c <- get_chain chain ;;
  cached balance_ttl balance_key_builder query_balance now {| kw_address := address; kw_chain := c |}.

Definition route_nfts (now : Z) (address chain : string) : M pyval :=
  c <- get_chain chain ;;
  cached nfts_ttl nfts_key_builder list_nfts now {| kw_address := address; kw_chain := c |}.

Definition route_chia_rpc (method : string) (params : option json) (chain : string) : M pyval :=
  c <- get_chain chain ;;
  full_node_rpc method params c.

End Api.

(** ** The binary program codec (behind [.types.Program]) *)

Module Codec.

Local Open Scope list_scope.
Local Open Scope Z_scope.

Definition Z_of_byte (b : Byte.byte) : Z := Z.of_N (Byte.to_N b).

(** [bytes([z])] for the low eight bits of [z]. *)
Definition byte_of_Z (z : Z) : Byte.byte :=
  match Byte.of_N (Z.to_N (z mod 256)) with
  | Some b => b
  | None => Byte.x00
  end.

Definition MAX_SINGLE_BYTE : Z := 0x7F.
Definition CONS_BOX_MARKER : Z := 0xFF.

(** Modelled from the spec: the length prefix of an atom, section 4.1 (the
    codec is not among the sources): a leading byte in 0x80..0xFF whose high
    bits tell how many prefix bytes there are, one to five depending on the
    magnitude of the length, the remaining bits holding the length,
    big-endian.  The bit layout is the one of the upstream full node, with
    which section 6 requires byte compatibility. *)
Definition atom_prefix (size : Z) : bytes :=
  if size <? 0x40 then
    [byte_of_Z (Z.lor 0x80 size)]
  else if size <? 0x2000 then
    [byte_of_Z (Z.lor 0xC0 (Z.shiftr size 8));
     byte_of_Z (Z.land size 0xFF)]
  else if size <? 0x100000 then
    [byte_of_Z (Z.lor 0xE0 (Z.shiftr size 16));
     byte_of_Z (Z.land (Z.shiftr size 8) 0xFF);
     byte_of_Z (Z.land size 0xFF)]
  else if size <? 0x8000000 then
    [byte_of_Z (Z.lor 0xF0 (Z.shiftr size 24));
     byte_of_Z (Z.land (Z.shiftr size 16) 0xFF);
     byte_of_Z (Z.land (Z.shiftr size 8) 0xFF);
     byte_of_Z (Z.land size 0xFF)]
  else
    [byte_of_Z (Z.lor 0xF8 (Z.shiftr size 32));
     byte_of_Z (Z.land (Z.shiftr size 24) 0xFF);
     byte_of_Z (Z.land (Z.shiftr size 16) 0xFF);
     byte_of_Z (Z.land (Z.shiftr size 8) 0xFF);
     byte_of_Z (Z.land size 0xFF)].

(** An atom that is its own encoding: a single byte 0x00..0x7F. *)
Definition self_encoding (a : bytes) : bool :=
  match a with
  | [x] => Z_of_byte x <=? MAX_SINGLE_BYTE
  | _ => false
  end.

(** Modelled from the spec: the encoding of an atom, section 4.1: a single
    byte 0x00..0x7F is its own encoding; any other atom is its length prefix
    followed by its bytes, so that the empty atom is the single byte 0x80. *)
Definition encode_atom (a : bytes) : bytes :=
  if self_encoding a then a
  else atom_prefix (Z.of_nat (length a)) ++ a.

(** Modelled from the spec: [encode], section 4.1, total and deterministic:
    a pair is the byte 0xFF followed by the encoding of [first], then the
    encoding of [rest]. *)
Fixpoint encode (p : Program) : bytes :=
  match p with
  | Atom a => encode_atom a
  | Pair first rest => byte_of_Z CONS_BOX_MARKER :: encode first ++ encode rest
  end.

(** [int.from_bytes(bs, "big")]. *)
Definition int_from_bytes (bs : bytes) : Z :=
  foldl (fun acc b => acc * 256 + Z_of_byte b) 0 bs.

(** Modelled from the spec: what the leading byte [v] of a length prefix
    tells, section 4.1: how many prefix bytes follow it, the mask of the
    length bits it holds itself, and the least length that needs a prefix of
    this size. *)
Definition prefix_shape (v : Z) : nat * Z * Z :=
  if v <? 0xC0 then (0%nat, 0x3F, 0)
  else if v <? 0xE0 then (1%nat, 0x1F, 0x40)
  else if v <? 0xF0 then (2%nat, 0x0F, 0x2000)
  else if v <? 0xF8 then (3%nat, 0x07, 0x100000)
  else (4%nat, 0x03, 0x8000000).

(** Modelled from the spec: reading one atom whose leading byte [b] is not
    the pair marker.  The result is the atom and the bytes left; [None] is
    [MalformedEncoding]: a prefix of more than five bytes, or fewer bytes
    left than the prefix or the length asks for.  With [strict] an encoding
    that is longer than the atom needs is refused as well. *)
Definition read_atom (strict : bool) (b : Byte.byte) (bs : bytes) : option (bytes * bytes) :=
  let v := Z_of_byte b in
  if v <=? MAX_SINGLE_BYTE then Some ([b], bs)
  else if 0xFC <=? v then None
  else
    match prefix_shape v with
    | (extra, mask, least) =>
        if (length bs <? extra)%nat then None
        else
          let size := int_from_bytes (byte_of_Z (Z.land v mask) :: take extra bs) in
          let bs' := drop extra bs in
          if Z.of_nat (length bs') <? size then None
          else
            let blob := take (Z.to_nat size) bs' in
            if strict && ((size <? least) || self_encoding blob) then None
            else Some (blob, drop (Z.to_nat size) bs')
    end.

(** The explicit stack of the decoder: a pair that waits for its [first], or
    that has it and waits for its [rest]. *)
Inductive frame :=
| PendingFirst
| PendingRest (first : Program).

(** A finished subtree [v] goes to the innermost waiting pair; with no pair
    waiting it is the result, together with the bytes left. *)
Fixpoint resume (k : bytes -> list frame -> option (Program * bytes))
    (v : Program) (bs : bytes) (stack : list frame) : option (Program * bytes) :=
  match stack with
  | [] => Some (v, bs)
  | PendingFirst :: stack' => k bs (PendingRest v :: stack')
  | PendingRest first :: stack' => resume k (Pair first v) bs stack'
  end.

(** Modelled from the spec: the decoder loop, iterative with an explicit
    stack as section 4.1 requires.  Every turn of the loop reads at least one
    byte, so the length of the input is fuel enough. *)
Fixpoint decode_loop (strict : bool) (fuel : nat) (bs : bytes) (stack : list frame)
    : option (Program * bytes) :=
  match fuel with
  | O => None
  | S fuel' =>
      match bs with
      | [] => None
      | b :: bs' =>
          if Z_of_byte b =? CONS_BOX_MARKER then
            decode_loop strict fuel' bs' (PendingFirst :: stack)
          else
            match read_atom strict b bs' with
            | None => None
            | Some (a, bs'') => resume (decode_loop strict fuel') (Atom a) bs'' stack
            end
      end
  end.

Definition decode_with (strict : bool) (bs : bytes) : option (Program * Z) :=
  match decode_loop strict (length bs) bs [] with
  | Some (p, rest) => Some (p, Z.of_nat (length bs) - Z.of_nat (length rest))
  | None => None
  end.

(** Modelled from the spec: [decode(bytes) -> (Program, bytes_consumed)],
    section 4.1; [None] is [MalformedEncoding]. *)
Definition decode (bs : bytes) : option (Program * Z) := decode_with false bs.

(** A canonical byte string: one program, every length prefix as short as
    the length allows, and no byte left over. *)
Definition canonical (bs : bytes) : Prop :=
  exists p, decode_with true bs = Some (p, Z.of_nat (length bs)).

(** The atoms a five-byte prefix can hold. *)
Fixpoint valid (p : Program) : Prop :=
  match p with
  | Atom a => Z.of_nat (length a) < 0x400000000
  | Pair first rest => valid first /\ valid rest
  end.

(** The bytes the decoder has read for the pairs that wait on its stack,
    innermost pair first in the stack, outermost first in the bytes. *)
Fixpoint stack_bytes (stack : list frame) : bytes :=
  match stack with
  | [] => []
  | PendingFirst :: stack' => stack_bytes stack' ++ [byte_of_Z CONS_BOX_MARKER]
  | PendingRest first :: stack' =>
      stack_bytes stack' ++ byte_of_Z CONS_BOX_MARKER :: encode first
  end.

Fixpoint stack_valid (stack : list frame) : Prop :=
  match stack with
  | [] => True
  | PendingFirst :: stack' => stack_valid stack'
  | PendingRest first :: stack' => valid first /\ stack_valid stack'
  end.

(** [bytes.fromhex] on a string of hexadecimal digit pairs. *)
Definition hex_value (c : ascii) : option Z :=
  let n := Z.of_N (N_of_ascii c) in
  if (48 <=? n) && (n <=? 57) then Some (n - 48)
  else if (97 <=? n) && (n <=? 102) then Some (n - 87)
  else if (65 <=? n) && (n <=? 70) then Some (n - 55)
  else None.

Fixpoint bytes_fromhex (s : string) : option bytes :=
  match s with
  | EmptyString => Some []
  | String c1 (String c2 s') =>
      match hex_value c1, hex_value c2, bytes_fromhex s' with
      | Some h, Some l, Some bs => Some (byte_of_Z (h * 16 + l) :: bs)
      | _, _, _ => None
      end
  | String _ EmptyString => None
  end.

(** Modelled from the spec: [Program.fromhex], the decoder of section 4.1
    applied to a hex string (section 6); it raises on a string that is not
    hexadecimal and on a malformed encoding. *)
Definition fromhex (s : string) : exn + Program :=
  match bytes_fromhex s with
  | None => inl (ValueError "non-hexadecimal number found in fromhex() arg")
  | Some bs =>
      match decode bs with
      | Some (p, _) => inr p
      | None => inl MalformedEncoding
      end
  end.

End Codec.

(** ** Vocabulary of the properties *)

(** The balance as the claim words it: every unspent record adds the amount
    of its coin, a spent record adds nothing. *)
Fixpoint unspent_total (coin_records : list CoinRecord) : Z :=
  match coin_records with
  | [] => 0
  | c :: rest => (if spent c then 0 else cj_amount (coin c)) + unspent_total rest
  end.

(** A computation that writes no log line and leaves the cache alone. *)
Definition quiet {A} (m : M A) : Prop :=
  forall w, log (snd (m w)) = log w /\ cache (snd (m w)) = cache w.

(** An entry of the /nfts answer that is the dict of an NFT owned by the
    puzzle hash [ph]. *)
Definition owned_by {package : Package} (ph : bytes) (d : json) : Prop :=
  exists nft_info, d = NFTInfo_to_dict nft_info /\ owner nft_info = bytes_hex ph.

(** The package with another extractor in place of [get_nft_info]. *)
Definition with_extractor (package : Package)
    (g : Coin -> Program -> Program -> exn + NFTInfo) : Package :=
  {| decode_puzzle_hash := decode_puzzle_hash;
     hexstr_to_bytes := hexstr_to_bytes;
     Coin_from_json_dict := Coin_from_json_dict;
     Program_fromhex := Program_fromhex;
     get_nft_info := g;
     NFTInfo_to_dict := NFTInfo_to_dict;
     settings_RPC_METHOD_WHITE_LIST := settings_RPC_METHOD_WHITE_LIST;
     settings_NFT_CHAIN_START_HEIGHT := settings_NFT_CHAIN_START_HEIGHT |}.

(** An extraction result in which a version failure is reported as a plain
    non-match. *)
Definition demote (r : exn + NFTInfo) : exn + NFTInfo :=
  match r with
  | inl UnsupportedNFTVersion => inl NotAnNFT
  | _ => r
  end.

(** ** A test bench

    Stand-ins for the modules that are not among the sources, a backend and
    two chains: the closed examples below run the routes on them. *)

Module Bench.

Definition strip_0x (s : string) : string :=
  match s with
  | String "0" (String "x" s') => s'
  | _ => s
  end.

Definition hexstr_to_bytes (s : string) : exn + bytes :=
  match Codec.bytes_fromhex (strip_0x s) with
  | Some b => inr b
  | None => inl (ValueError "non-hexadecimal number found in fromhex() arg")
  end.

(** A toy address: the network prefix, the separator [1], the puzzle hash
    in hexadecimal. *)
Fixpoint split_address (s : string) : option (string * string) :=
  match s with
  | EmptyString => None
  | String c s' =>
      if Ascii.eqb c "1" then Some (EmptyString, s')
      else match split_address s' with
           | Some (p, h) => Some (String c p, h)
           | None => None
           end
  end.

Definition decode_puzzle_hash (address : string) : exn + (string * bytes) :=
  match split_address address with
  | Some (prefix, h) =>
      match Codec.bytes_fromhex h with
      | Some b => inr (prefix, b)
      | None => inl (ValueError "Invalid Address")
      end
  | None => inl (ValueError "Invalid Address")
  end.

Definition Coin_from_json_dict (c : CoinJson) : exn + Coin :=
  let? parent := hexstr_to_bytes (cj_parent_coin_info c) in
  let? ph := hexstr_to_bytes (cj_puzzle_hash c) in
  inr {| coin_parent_coin_info := parent; coin_puzzle_hash := ph;
         coin_amount := cj_amount c |}.

(** A toy extractor: the puzzle [(launcher . owner)] of two atoms is an NFT
    of that owner, a puzzle with a deeper second half is a revision it does
    not know, anything else is no NFT. *)
Definition get_nft_info (c : Coin) (puzzle solution : Program) : exn + NFTInfo :=
  match puzzle with
  | Pair (Atom launcher) (Atom owner_ph) =>
      inr {| launcher_id := bytes_hex launcher;
             owner := bytes_hex owner_ph;
             current_owner_did := None;
             metadata_uris := [];
             metadata_hash := "";
             license_uris := [];
             royalty_address := "";
             royalty_percentage := 0;
             transfer_program_hash := "" |}
  | Pair _ (Pair _ _) => inl UnsupportedNFTVersion
  | _ => inl NotAnNFT
  end.

Definition NFTInfo_to_dict (i : NFTInfo) : json :=
  JDict [("launcher_id", JStr (launcher_id i)); ("owner", JStr (owner i))].

#[local] Instance package : Package :=
  Build_Package decode_puzzle_hash hexstr_to_bytes Coin_from_json_dict
    Codec.fromhex get_nft_info NFTInfo_to_dict
    ["get_blockchain_state"; "get_coin_record_by_name"]
    {[ "mainnet" := 2181000 ]}.

Definition record (parent : string) (amount : Z) (is_spent : bool) (height : Z) : CoinRecord :=
  {| coin := {| cj_parent_coin_info := parent; cj_puzzle_hash := "0xaabb";
                cj_amount := amount |};
     spent := is_spent; confirmed_block_index := height |}.

(** Five coins hinted to the puzzle hash [aabb]. *)
Definition hinted : list CoinRecord :=
  [record "0x01" 1 false 2200001; record "0x02" 1 false 2200002;
   record "0x03" 1 false 2200003; record "0x04" 1 false 2200004;
   record "0x05" 1 false 2200005].

(** Three coins of the puzzle hash [aabb], one of them spent. *)
Definition owned : list CoinRecord :=
  [record "0x0a" 1750000000000 false 100; record "0x0b" 7 true 101;
   record "0x0c" 250 false 102].

Definition nft_spend : CoinSpend :=
  {| puzzle_reveal := "ff0182aabb"; solution := "80" |}.

(** A backend whose answer about the third hinted coin is [third]. *)
Definition backend (third : exn + CoinSpend) : FullNodeRpcClient := {|
  get_coin_records_by_puzzle_hash ph _ :=
    if decide (ph = [Byte.xaa; Byte.xbb]) then inr owned else inr [];
  get_coin_records_by_hint ph _ _ :=
    if decide (ph = [Byte.xaa; Byte.xbb]) then inr hinted else inr [];
  get_puzzle_and_solution coin_id _ :=
    if decide (coin_id = [Byte.x03]) then third else inr nft_spend;
  push_tx _ := inl (ValueError "bundle rejected");
  raw_fetch method _ := inr (JDict [("success", JBool true); ("method", JStr method)]) |}.

(** A second backend, which knows no coin at all. *)
Definition empty_backend : FullNodeRpcClient := {|
  get_coin_records_by_puzzle_hash _ _ := inr [];
  get_coin_records_by_hint _ _ _ := inr [];
  get_puzzle_and_solution _ _ := inl (RpcError "coin not found");
  push_tx _ := inl (RpcError "unavailable");
  raw_fetch _ _ := inl (RpcError "unavailable") |}.

Definition mainnet (third : exn + CoinSpend) : Chain :=
  {| id := "0x01"; network_name := "mainnet"; network_prefix := "xch";
     client := backend third |}.

Definition testnet : Chain :=
  {| id := "0x02"; network_name := "testnet10"; network_prefix := "txch";
     client := empty_backend |}.

Definition chains (third : exn + CoinSpend) : gmap string Chain :=
  {[ "0x01" := mainnet third; "0x02" := testnet ]}.

Definition world0 : World := {| rpc_trace := []; log := []; cache := ∅ |}.

Definition address : string := "xch1aabb".

Definition nft_dict : json :=
  JDict [("launcher_id", JStr "01"); ("owner", JStr "aabb")].

(** The third hinted coin with a puzzle cut short, with a puzzle of a
    revision the extractor does not know, with a puzzle that is no NFT, and
    with an NFT of another owner. *)
Definition truncated_spend : CoinSpend :=
  {| puzzle_reveal := "ff01"; solution := "80" |}.

Definition unsupported_spend : CoinSpend :=
  {| puzzle_reveal := "ff01ff0203"; solution := "80" |}.

Definition plain_spend : CoinSpend :=
  {| puzzle_reveal := "80"; solution := "80" |}.

Definition foreign_spend : CoinSpend :=
  {| puzzle_reveal := "ff0182ccdd"; solution := "80" |}.

Definition good : Chain := mainnet (inr nft_spend).

Definition utxos_answer : pyval :=
  VUtxos [ {| parent_coin_info := "0x0a"; puzzle_hash := "0xaabb";
              amount := "1750000000000" |};
           {| parent_coin_info := "0x0c"; puzzle_hash := "0xaabb";
              amount := "250" |} ].

Definition world_after_owned : World :=
  {| rpc_trace :=
       [("0x01", Call_get_coin_records_by_puzzle_hash [Byte.xaa; Byte.xbb] false)];
     log := []; cache := ∅ |}.

Definition world_cached (key : string) (v : pyval) (expires : Z) : World :=
  {| rpc_trace := rpc_trace world_after_owned; log := [];
     cache := {[ key := (v, expires) ]} |}.

End Bench.

(** ** The remaining routes and the startup *)

(** [/sendtx] as the framework serves it: [Depends(get_chain)], then
    [create_transaction]. *)
Definition route_sendtx (chains : gmap string Chain) (spend_bundle : json)
    (chain : string) : M pyval :=
  c <- get_chain chains chain ;;
  create_transaction spend_bundle c.

(** A row of [settings.SUPPORTED_CHAINS], as [init_chains] reads it;
    [row.get(key)] is [None] for a missing key. *)
Record ChainConfig := {
  row_id : Z;
  row_network_name : string;
  row_network_prefix : string;
  row_proxy_rpc_url : option string;
  row_chia_root_path : option string }.

(** What the startup imports: [int_to_hex] of [.utils] and the constructors
    and the [get_network_info] method of [FullNodeRpcClient]; none of them is
    among the sources. *)
Class Startup := {
  int_to_hex : Z -> string;
  create_by_proxy_url : string -> exn + FullNodeRpcClient;
  create_by_chia_root_path : string -> exn + FullNodeRpcClient;
  get_network_info : FullNodeRpcClient -> exn + json }.

(** The truth value of [row.get(key)]: a missing key, [None] and the empty
    string are false. *)
Definition truthy (v : option string) : option string :=
  match v with
  | Some s => if decide (s = "") then None else Some s
  | None => None
  end.

(** The [for] loop of [init_chains] over the rows, [chains] being the dict
    built so far. *)
Fixpoint init_chains_loop {startup : Startup} (chains_config : list ChainConfig)
    (chains : gmap string Chain) : exn + gmap string Chain :=
  match chains_config with
  | [] => inr chains
  | row :: rows =>
      let id_hex := int_to_hex (row_id row) in
      let? client :=
        match truthy (row_proxy_rpc_url row), truthy (row_chia_root_path row) with
        | Some url, _ => create_by_proxy_url url
        | None, Some path => create_by_chia_root_path path
        | None, None =>
            inl (ValueError ("chian " ++ str (row_id row)
                             ++ " has no full node rpc config"))
        end in
      let? network_info := get_network_info client in
      init_chains_loop rows
        (<[id_hex := {| id := id_hex; network_name := row_network_name row;
                        network_prefix := row_network_prefix row;
                        client := client |}]> chains)
  end.

(** [init_chains]: the value it leaves in [app.state.chains], or the
    exception that ends the startup. *)
Definition init_chains {startup : Startup} (chains_config : list ChainConfig)
    : exn + gmap string Chain :=
  init_chains_loop chains_config ∅.

(** ** Vocabulary of the further properties *)

(** The request [list_nfts] issues for one coin record, when its parent id
    converts. *)
Definition request_of {package : Package} (chain : Chain) (cr : CoinRecord)
    : option (string * RpcCall) :=
  match hexstr_to_bytes (cj_parent_coin_info (coin cr)) with
  | inr coin_id =>
      Some (id chain, Call_get_puzzle_and_solution coin_id (confirmed_block_index cr))
  | inl _ => None
  end.

(** The backend answers for the coin record with the spend [cs]. *)
Definition answered {package : Package} (chain : Chain) (cr : CoinRecord)
    (cs : CoinSpend) : Prop :=
  exists coin_id,
    hexstr_to_bytes (cj_parent_coin_info (coin cr)) = inr coin_id /\
    get_puzzle_and_solution (client chain) coin_id (confirmed_block_index cr) = inr cs.

(** The coin, the puzzle and the solution of a row all decode. *)
Definition row_decodes {package : Package} (row : CoinRecord * CoinSpend) : Prop :=
  (exists nft_coin, Coin_from_json_dict (coin (fst row)) = inr nft_coin) /\
  (exists puzzle, Program_fromhex (puzzle_reveal (snd row)) = inr puzzle) /\
  (exists sol, Program_fromhex (solution (snd row)) = inr sol).

(** The exception with which the decoding of a row fails, if it does: that
    of the coin, else that of the puzzle, else that of the solution. *)
Definition row_failure {package : Package} (row : CoinRecord * CoinSpend) : option exn :=
  match Coin_from_json_dict (coin (fst row)) with
  | inl e => Some e
  | inr _ =>
      match Program_fromhex (puzzle_reveal (snd row)) with
      | inl e => Some e
      | inr _ =>
          match Program_fromhex (solution (snd row)) with
          | inl e => Some e
          | inr _ => None
          end
      end
  end.

(** The entry a row contributes to the listing for the puzzle hash [ph]: the
    dict of its NFT when the extraction succeeds with that owner. *)
Definition nft_of_row {package : Package} (ph : bytes) (row : CoinRecord * CoinSpend)
    : option json :=
  match Coin_from_json_dict (coin (fst row)),
        Program_fromhex (puzzle_reveal (snd row)),
        Program_fromhex (solution (snd row)) with
  | inr nft_coin, inr puzzle, inr sol =>
      match get_nft_info nft_coin puzzle sol with
      | inr nft_info =>
          if decide (owner nft_info = bytes_hex ph)
          then Some (NFTInfo_to_dict nft_info) else None
      | inl _ => None
      end
  | _, _, _ => None
  end.

(** A second bench: a startup whose proxy constructor knows one URL. *)
Module StartupBench.

Definition int_to_hex (n : Z) : string :=
  "0x" ++ bytes_hex [Codec.byte_of_Z n].

#[local] Instance startup : Startup :=
  Build_Startup int_to_hex
    (fun url => if decide (url = "https://node.example/rpc")
                then inr (Bench.backend (inr Bench.nft_spend))
                else inl (RpcError "cannot connect"))
    (fun path => inr Bench.empty_backend)
    (fun c => inr (JDict [("success", JBool true)])).

Definition main_row : ChainConfig :=
  {| row_id := 1; row_network_name := "mainnet"; row_network_prefix := "xch";
     row_proxy_rpc_url := Some "https://node.example/rpc";
     row_chia_root_path := Some "/root/.chia/mainnet" |}.

Definition test_row : ChainConfig :=
  {| row_id := 2; row_network_name := "testnet10"; row_network_prefix := "txch";
     row_proxy_rpc_url := Some "";
     row_chia_root_path := Some "/root/.chia/testnet10" |}.

Definition bare_row : ChainConfig :=
  {| row_id := 3; row_network_name := "simulator"; row_network_prefix := "txch";
     row_proxy_rpc_url := None; row_chia_root_path := None |}.

End StartupBench.


(** Further fixtures: a backend that lists the owned coins in the reverse
    order, a backend with a hinted coin whose parent id is no hexadecimal
    string, and the registry the startup bench builds. *)
Module MoreBench.

Definition mirror : Chain :=
  {| id := "0x03"; network_name := "mainnet"; network_prefix := "xch";
     client := {|
       get_coin_records_by_puzzle_hash _ _ := inr (reverse Bench.owned);
       get_coin_records_by_hint _ _ _ := inr [];
       get_puzzle_and_solution _ _ := inl (RpcError "coin not found");
       push_tx _ := inr {| status := JStr "SUCCESS" |};
       raw_fetch _ _ := inl (RpcError "unavailable") |} |}.

Definition bad_parent : Chain :=
  {| id := "0x04"; network_name := "mainnet"; network_prefix := "xch";
     client := {|
       get_coin_records_by_puzzle_hash _ _ := inr [];
       get_coin_records_by_hint _ _ _ :=
         inr [Bench.record "0x01" 1 false 2200001; Bench.record "zz" 1 false 2200002];
       get_puzzle_and_solution _ _ := inr Bench.nft_spend;
       push_tx _ := inl (RpcError "unavailable");
       raw_fetch _ _ := inl (RpcError "unavailable") |} |}.

Definition registry : gmap string Chain :=
  {[ "0x01" := {| id := "0x01"; network_name := "mainnet"; network_prefix := "xch";
                  client := Bench.backend (inr Bench.nft_spend) |};
     "0x02" := {| id := "0x02"; network_name := "testnet10"; network_prefix := "txch";
                  client := Bench.empty_backend |} ]}.

Definition big_coin (amount : Z) : CoinJson :=
  {| cj_parent_coin_info := "0x0a"; cj_puzzle_hash := "0xaabb"; cj_amount := amount |}.

End MoreBench.


(** ** The service as a whole *)







(** Fixtures for the cache: a second chain with the address prefix of the
    main chain, whose backend knows no coin. *)
Module CacheBench.

Definition idle : Chain :=
  {| id := "0x05"; network_name := "mainnet"; network_prefix := "xch";
     client := Bench.empty_backend |}.

Definition chains : gmap string Chain :=
  {[ "0x01" := Bench.good; "0x05" := idle ]}.



End CacheBench.

(** * Examples *)

Example str_examples : str 0 = "0" /\ str 1750000000000 = "1750000000000" /\ str (-42) = "-42".
Proof. repeat split; vm_compute; reflexivity. Qed.

Example bytes_hex_example :
  bytes_hex [Byte.x00; Byte.x7f; Byte.xa5; Byte.xff] = "007fa5ff".
Proof. reflexivity. Qed.

Example codec_examples :
  Codec.encode (Atom []) = [Byte.x80] /\
  Codec.encode (Atom [Byte.x05]) = [Byte.x05] /\
  Codec.encode (Pair (Atom [Byte.x01]) (Atom [Byte.xc8])) = [Byte.xff; Byte.x01; Byte.x81; Byte.xc8] /\
  Codec.decode [Byte.xff; Byte.x01; Byte.x81; Byte.xc8] = Some (Pair (Atom [Byte.x01]) (Atom [Byte.xc8]), 4) /\
  Codec.decode [Byte.x81; Byte.x05] = Some (Atom [Byte.x05], 2) /\
  Codec.decode_with true [Byte.x81; Byte.x05] = None /\
  Codec.decode [Byte.xff; Byte.x01] = None /\
  Codec.fromhex "ff0181c8" = inr (Pair (Atom [Byte.x01]) (Atom [Byte.xc8])).
Proof. repeat split; vm_compute; reflexivity. Qed.

Example bench_list_nfts_all_good :
  fst (@list_nfts Bench.package Bench.address (Bench.mainnet (inr Bench.nft_spend)) Bench.world0)
  = inr (VNfts [Bench.nft_dict; Bench.nft_dict; Bench.nft_dict; Bench.nft_dict; Bench.nft_dict]).
Proof. vm_compute. reflexivity. Qed.

(** * Properties of the routes *)

Section ApiProperties.

Local Open Scope list_scope.

Context {package : Package}.
Variable chains : gmap string Chain.

(** ** /balance *)

Lemma foldl_add_shift (l : list Z) (acc : Z) :
  foldl Z.add acc l = acc + foldl Z.add 0 l.
Proof.
  revert acc. induction l as [|x l IH]; intros acc; simpl.
  - lia.
  - rewrite (IH (acc + x)), (IH (0 + x)). lia.
Qed.

Lemma sum_cons (x : Z) (l : list Z) : sum (x :: l) = x + sum l.
Proof. unfold sum. simpl. rewrite foldl_add_shift. lia. Qed.

Lemma sum_unspent (coin_records : list CoinRecord) :
  sum (map (fun c => cj_amount (coin c))
           (filter (fun c => spent c = false) coin_records))
  = unspent_total coin_records.
Proof.
  induction coin_records as [|c rest IH]; [reflexivity|].
  simpl. destruct (spent c) eqn:Hs.
  - rewrite filter_cons_False by (rewrite Hs; discriminate). lia.
  - rewrite filter_cons_True by (rewrite Hs; reflexivity).
    simpl map. rewrite sum_cons. lia.
Qed.

Lemma unspent_total_all_spent (coin_records : list CoinRecord) :
  Forall (fun c => spent c = true) coin_records ->
  unspent_total coin_records = 0.
Proof.
  induction 1 as [|c rest Hc _ IH]; simpl; [reflexivity|].
  rewrite Hc, IH. reflexivity.
Qed.

(** The body of [query_balance], under the cache decorator: when the address
    decodes and the backend answers, it returns the sum of the amounts of
    exactly the unspent coin records of the answer, asks the backend once,
    and returns 0 when no record of the answer is unspent. *)
Lemma query_balance_sums_unspent (address : string) (chain : Chain) (w : World)
    (puzzle_hash : bytes) (coin_records : list CoinRecord) :
  decode_address address (network_prefix chain) = inr puzzle_hash ->
  get_coin_records_by_puzzle_hash (client chain) puzzle_hash false = inr coin_records ->
  query_balance address chain w
  = (inr (VBalance (unspent_total coin_records)),
     {| rpc_trace := rpc_trace w ++
          [(id chain, Call_get_coin_records_by_puzzle_hash puzzle_hash false)];
        log := log w; cache := cache w |})
  /\ (Forall (fun c => spent c = true) coin_records ->
      fst (query_balance address chain w) = inr (VBalance 0)).
Proof.
  intros Haddr Hrpc.
  assert (Hrun : query_balance address chain w
    = (inr (VBalance (unspent_total coin_records)),
       {| rpc_trace := rpc_trace w ++
            [(id chain, Call_get_coin_records_by_puzzle_hash puzzle_hash false)];
          log := log w; cache := cache w |})).
  { unfold query_balance, bind, lift, await_rpc, ret.
    rewrite Haddr. rewrite Hrpc. rewrite sum_unspent. reflexivity. }
  split; [exact Hrun|].
  intros Hall. rewrite Hrun. simpl.
  rewrite (unspent_total_all_spent _ Hall). reflexivity.
Qed.

(** ** /utxos *)

Lemma get_utxos_loop_spec (coin_records : list CoinRecord) (data : list UTXO) :
  get_utxos_loop coin_records data
  = data ++ map (fun row => coin_javascript_compat (coin row))
                (filter (fun row => spent row = false) coin_records).
Proof.
  revert data. induction coin_records as [|row rows IH]; intros data; simpl.
  - rewrite app_nil_r. reflexivity.
  - destruct (spent row) eqn:Hs.
    + rewrite filter_cons_False by (rewrite Hs; discriminate). apply IH.
    + rewrite filter_cons_True by (rewrite Hs; reflexivity).
      rewrite IH. simpl. rewrite <- app_assoc. reflexivity.
Qed.

(** The body of [get_utxos], under the cache decorator: when the address
    decodes and the backend answers, it returns one entry for each unspent
    record of the answer, in order, and none for a spent one; the entry
    carries the decimal string of the amount and the two hashes of the coin
    as they came. *)
Lemma get_utxos_unspent_entries (address : string) (chain : Chain) (w : World)
    (pzh : bytes) (coin_records : list CoinRecord) :
  decode_address address (network_prefix chain) = inr pzh ->
  get_coin_records_by_puzzle_hash (client chain) pzh false = inr coin_records ->
  exists data,
    fst (get_utxos address chain w) = inr (VUtxos data) /\
    data = map (fun row => coin_javascript_compat (coin row))
               (filter (fun row => spent row = false) coin_records) /\
    Forall (fun u => exists row,
              row ∈ coin_records /\ spent row = false /\
              amount u = str (cj_amount (coin row)) /\
              parent_coin_info u = cj_parent_coin_info (coin row) /\
              puzzle_hash u = cj_puzzle_hash (coin row)) data.
Proof.
  intros Haddr Hrpc.
  eexists. split; [|split; [reflexivity|]].
  - unfold get_utxos, bind, lift, await_rpc, ret.
    rewrite Haddr. rewrite Hrpc. simpl.
    rewrite get_utxos_loop_spec. reflexivity.
  - apply Forall_forall. intros u Hu.
    apply list_elem_of_fmap in Hu as (row & -> & Hrow).
    apply list_elem_of_filter in Hrow as [Hs Hin].
    exists row. repeat split; assumption.
Qed.

(** ** The cache decorator *)

Lemma cached_miss (ttl : Z) (kb : Kwargs -> string) (f : string -> Chain -> M pyval)
    (now : Z) (kwargs : Kwargs) (w w' : World) (v : pyval) :
  cache w !! kb kwargs = None ->
  f (kw_address kwargs) (kw_chain kwargs) w = (inr v, w') ->
  cached ttl kb f now kwargs w
  = (inr v, {| rpc_trace := rpc_trace w'; log := log w';
               cache := <[kb kwargs := (v, now + ttl)]> (cache w') |}).
Proof. intros Hmiss Hf. unfold cached. rewrite Hmiss, Hf. reflexivity. Qed.

Lemma cached_hit (ttl : Z) (kb : Kwargs -> string) (f : string -> Chain -> M pyval)
    (now : Z) (kwargs : Kwargs) (w : World) (v : pyval) (expires : Z) :
  cache w !! kb kwargs = Some (v, expires) ->
  now < expires ->
  cached ttl kb f now kwargs w = (inr v, w).
Proof.
  intros Hhit Hlive. unfold cached. rewrite Hhit.
  destruct (decide (now < expires)); [reflexivity | contradiction].
Qed.

(** A first call that misses and succeeds leaves an entry that a second
    call with the same key takes, whatever its other arguments are. *)
Lemma cached_shared_entry (ttl : Z) (kb : Kwargs -> string)
    (f : string -> Chain -> M pyval) (now now' : Z) (kw1 kw2 : Kwargs)
    (w w1 : World) (v : pyval) :
  kb kw1 = kb kw2 ->
  cache w !! kb kw1 = None ->
  now' < now + ttl ->
  cached ttl kb f now kw1 w = (inr v, w1) ->
  cached ttl kb f now' kw2 w1 = (inr v, w1).
Proof.
  intros Hkey Hmiss Hlive Hfirst.
  unfold cached in Hfirst. rewrite Hmiss in Hfirst.
  destruct (f (kw_address kw1) (kw_chain kw1) w) as [[e|v0] w0] eqn:Hf;
    [discriminate|].
  injection Hfirst as <- <-.
  apply cached_hit with (expires := now + ttl); [|exact Hlive].
  simpl. rewrite <- Hkey. apply lookup_insert_eq.
Qed.

Lemma get_chain_found (chain_id : string) (chain : Chain) (w : World) :
  chains !! chain_id = Some chain ->
  get_chain chains chain_id w = (inr chain, w).
Proof. intros H. unfold get_chain. rewrite H. reflexivity. Qed.

Lemma route_via_chain {A} (chain_id : string) (chain : Chain) (k : Chain -> M A) (w : World) :
  chains !! chain_id = Some chain ->
  (c <- get_chain chains chain_id ;; k c) w = k chain w.
Proof. intros H. unfold bind. rewrite (get_chain_found _ _ _ H). reflexivity. Qed.

(** C7: the cached routes store their answer under the name of the route,
    a colon and the address, for 10 seconds (/utxos, /balance) and for 20
    seconds (/nfts): a request at time [now] that finds no entry and whose
    route answers [v] leaves [v] under that key until [now + ttl]. *)
Theorem cache_keys_and_ttls (now : Z) (address chain_id : string) (chain : Chain)
    (w w' : World) (v : pyval) :
  chains !! chain_id = Some chain ->
  (cache w !! ("utxos:" ++ address)%string = None ->
   get_utxos address chain w = (inr v, w') ->
   route_utxos chains now address chain_id w
   = (inr v, {| rpc_trace := rpc_trace w'; log := log w';
                cache := <[("utxos:" ++ address)%string := (v, now + 10)]> (cache w') |}))
  /\ (cache w !! ("balance:" ++ address)%string = None ->
      query_balance address chain w = (inr v, w') ->
      route_balance chains now address chain_id w
      = (inr v, {| rpc_trace := rpc_trace w'; log := log w';
                   cache := <[("balance:" ++ address)%string := (v, now + 10)]> (cache w') |}))
  /\ (cache w !! ("nfts:" ++ address)%string = None ->
      list_nfts address chain w = (inr v, w') ->
      route_nfts chains now address chain_id w
      = (inr v, {| rpc_trace := rpc_trace w'; log := log w';
                   cache := <[("nfts:" ++ address)%string := (v, now + 20)]> (cache w') |}))
  /\ 10 <= utxos_ttl <= 20 /\ 10 <= balance_ttl <= 20 /\ 10 <= nfts_ttl <= 20.
Proof.
  intros Hchain.
  split; [|split; [|split]].
  - intros Hmiss Hf. unfold route_utxos. rewrite (route_via_chain _ _ _ _ Hchain).
    apply (cached_miss utxos_ttl utxos_key_builder get_utxos); assumption.
  - intros Hmiss Hf. unfold route_balance. rewrite (route_via_chain _ _ _ _ Hchain).
    apply (cached_miss balance_ttl balance_key_builder query_balance); assumption.
  - intros Hmiss Hf. unfold route_nfts. rewrite (route_via_chain _ _ _ _ Hchain).
    apply (cached_miss nfts_ttl nfts_key_builder list_nfts); assumption.
  - unfold utxos_ttl, balance_ttl, nfts_ttl. lia.
Qed.

(** C4: the cache keys of /utxos, /balance and /nfts are built from the
    address alone.  So when a request for an address on one chain found no
    entry and was answered [v], a request for the same address on any other
    chain within the time to live is answered [v] from the cache, and the
    world, the trace of backend calls included, stays as it was. *)
Theorem cache_key_ignores_chain (now now' : Z) (address id1 id2 : string)
    (c1 c2 : Chain) (w w1 : World) (v : pyval) :
  chains !! id1 = Some c1 ->
  chains !! id2 = Some c2 ->
  (utxos_key_builder {| kw_address := address; kw_chain := c1 |}
     = utxos_key_builder {| kw_address := address; kw_chain := c2 |} /\
   balance_key_builder {| kw_address := address; kw_chain := c1 |}
     = balance_key_builder {| kw_address := address; kw_chain := c2 |} /\
   nfts_key_builder {| kw_address := address; kw_chain := c1 |}
     = nfts_key_builder {| kw_address := address; kw_chain := c2 |})
  /\ (cache w !! ("utxos:" ++ address)%string = None ->
      now' < now + 10 ->
      route_utxos chains now address id1 w = (inr v, w1) ->
      route_utxos chains now' address id2 w1 = (inr v, w1))
  /\ (cache w !! ("balance:" ++ address)%string = None ->
      now' < now + 10 ->
      route_balance chains now address id1 w = (inr v, w1) ->
      route_balance chains now' address id2 w1 = (inr v, w1))
  /\ (cache w !! ("nfts:" ++ address)%string = None ->
      now' < now + 20 ->
      route_nfts chains now address id1 w = (inr v, w1) ->
      route_nfts chains now' address id2 w1 = (inr v, w1)).
Proof.
  intros H1 H2.
  split; [repeat split|].
  split; [|split].
  - intros Hmiss Hlive. unfold route_utxos.
    rewrite (route_via_chain _ _ _ _ H1), (route_via_chain _ _ _ _ H2).
    apply cached_shared_entry; [reflexivity | exact Hmiss | exact Hlive].
  - intros Hmiss Hlive. unfold route_balance.
    rewrite (route_via_chain _ _ _ _ H1), (route_via_chain _ _ _ _ H2).
    apply cached_shared_entry; [reflexivity | exact Hmiss | exact Hlive].
  - intros Hmiss Hlive. unfold route_nfts.
    rewrite (route_via_chain _ _ _ _ H1), (route_via_chain _ _ _ _ H2).
    apply cached_shared_entry; [reflexivity | exact Hmiss | exact Hlive].
Qed.

(** ** /chia_rpc *)

(** C6: a method outside the configured allow list is answered by an HTTP
    400 error and the world, the trace of backend calls included, is left
    as it was; a method of the list, on a known chain, goes to [raw_fetch]
    of that chain's backend once, with the given parameters, and the answer
    of [raw_fetch], a result or an error, is what the route returns. *)
Theorem chia_rpc_allow_list (method : string) (params : option json)
    (chain_id : string) (w : World) :
  (method ∉ settings_RPC_METHOD_WHITE_LIST ->
   exists detail,
     route_chia_rpc chains method params chain_id w
     = (inl (HTTPException 400 detail), w))
  /\ (forall chain,
      method ∈ settings_RPC_METHOD_WHITE_LIST ->
      chains !! chain_id = Some chain ->
      route_chia_rpc chains method params chain_id w
      = (match raw_fetch (client chain) method params with
         | inl e => inl e
         | inr r => inr (VJson r)
         end,
         {| rpc_trace := rpc_trace w ++ [(id chain, Call_raw_fetch method params)];
            log := log w; cache := cache w |})).
Proof.
  split.
  - intros Hout. unfold route_chia_rpc, bind, get_chain.
    destruct (chains !! chain_id) as [chain|]; [|eexists; reflexivity].
    unfold ret, full_node_rpc, RPC_METHOD_WHITE_LIST.
    destruct (decide (method ∉ list_to_set settings_RPC_METHOD_WHITE_LIST)) as [_|Hin].
    + eexists. reflexivity.
    + exfalso. apply Hin. rewrite elem_of_list_to_set. exact Hout.
  - intros chain Hin Hchain. unfold route_chia_rpc.
    rewrite (route_via_chain _ _ _ _ Hchain).
    unfold full_node_rpc, RPC_METHOD_WHITE_LIST.
    destruct (decide (method ∉ list_to_set settings_RPC_METHOD_WHITE_LIST)) as [Hout|_].
    + exfalso. apply Hout. rewrite elem_of_list_to_set. exact Hin.
    + unfold bind, await_rpc, ret.
      destruct (raw_fetch (client chain) method params); reflexivity.
Qed.

(** ** /nfts *)

Lemma comprehension_inr {A B} (f : A -> exn + B) (l : list A) (bs : list B) :
  comprehension f l = inr bs -> Forall2 (fun a b => f a = inr b) l bs.
Proof.
  revert bs. induction l as [|a l IH]; simpl; intros bs H.
  - injection H as <-. constructor.
  - destruct (f a) as [e|b] eqn:Hf; [discriminate|]. simpl in H.
    destruct (comprehension f l) as [e|bs'] eqn:Hc; [discriminate|]. simpl in H.
    injection H as <-. constructor; [exact Hf | apply IH; reflexivity].
Qed.

Lemma comprehension_total {A B} (f : A -> exn + B) (l : list A) :
  Forall (fun a => exists b, f a = inr b) l ->
  exists bs, comprehension f l = inr bs.
Proof.
  induction 1 as [|a l [b Hb] _ [bs IH]]; simpl.
  - eexists. reflexivity.
  - rewrite Hb. simpl. rewrite IH. simpl. eexists. reflexivity.
Qed.

Lemma await_rpc_quiet {A} (chain : Chain) (c : RpcCall) (answer : exn + A) :
  quiet (await_rpc chain c answer).
Proof. intros w. split; reflexivity. Qed.

Lemma gather_quiet {A} (aws : list (M A)) :
  Forall quiet aws -> quiet (gather aws).
Proof.
  induction 1 as [|aw aws Haw _ IH]; intros w.
  - split; reflexivity.
  - simpl. destruct (Haw w) as [Hl Hc].
    destruct (aw w) as [[e|a] w1]; simpl in Hl, Hc.
    + simpl. destruct (IH w1) as [Hl1 Hc1]. split; congruence.
    + destruct (IH w1) as [Hl1 Hc1].
      destruct (gather aws w1) as [[e|l] w2]; simpl in *; split; congruence.
Qed.

Lemma call_shape (chain : Chain) (cr : CoinRecord) (aw : M CoinSpend) :
  puzzle_and_solution_call chain cr = inr aw ->
  exists coin_id,
    hexstr_to_bytes (cj_parent_coin_info (coin cr)) = inr coin_id /\
    aw = await_rpc chain
           (Call_get_puzzle_and_solution coin_id (confirmed_block_index cr))
           (get_puzzle_and_solution (client chain) coin_id (confirmed_block_index cr)).
Proof.
  unfold puzzle_and_solution_call. intros H.
  destruct (hexstr_to_bytes (cj_parent_coin_info (coin cr))) as [e|coin_id];
    [discriminate|].
  simpl in H. injection H as <-. exists coin_id. split; reflexivity.
Qed.

Lemma calls_quiet (chain : Chain) (coin_records : list CoinRecord) (calls : list (M CoinSpend)) :
  comprehension (puzzle_and_solution_call chain) coin_records = inr calls ->
  Forall quiet calls.
Proof.
  intros H. apply comprehension_inr in H.
  induction H as [|cr aw crs aws Hc _ IH]; constructor; [|exact IH].
  apply call_shape in Hc as (coin_id & _ & ->). apply await_rpc_quiet.
Qed.

(** What [list_nfts] comes to once its first steps have succeeded. *)
Lemma list_nfts_steps (address : string) (chain : Chain) (w : World)
    (ph : bytes) (h : Z) (coin_records : list CoinRecord) (calls : list (M CoinSpend)) :
  decode_address address (network_prefix chain) = inr ph ->
  settings_NFT_CHAIN_START_HEIGHT !! network_name chain = Some h ->
  get_coin_records_by_hint (client chain) ph false h = inr coin_records ->
  comprehension (puzzle_and_solution_call chain) coin_records = inr calls ->
  list_nfts address chain w
  = match gather calls
            {| rpc_trace := rpc_trace w ++
                 [(id chain, Call_get_coin_records_by_hint ph false h)];
               log := log w; cache := cache w |} with
    | (inl e, w2) => (inl e, w2)
    | (inr pz_and_solutions, w2) =>
        (match list_nfts_loop ph (zip coin_records pz_and_solutions) [] with
         | inl e => inl e
         | inr data => inr (VNfts data)
         end, w2)
    end.
Proof.
  intros Ha Hh Hr Hc. unfold list_nfts, bind, lift, await_rpc, ret.
  rewrite Ha, Hh, Hr, Hc.
  destruct (gather calls _) as [[e|pzs] w2]; [reflexivity|].
  destruct (list_nfts_loop ph (zip coin_records pzs) []); reflexivity.
Qed.

Lemma list_nfts_loop_owned (ph : bytes) (rows : list (CoinRecord * CoinSpend))
    (data result : list json) :
  list_nfts_loop ph rows data = inr result ->
  Forall (owned_by ph) data ->
  Forall (owned_by ph) result.
Proof.
  revert data. induction rows as [|[cr cs] rows IH]; simpl; intros data Hrun Hdata.
  - injection Hrun as <-. exact Hdata.
  - destruct (Coin_from_json_dict (coin cr)) as [e|nft_coin]; [discriminate|].
    simpl in Hrun.
    destruct (Program_fromhex (puzzle_reveal cs)) as [e|puzzle]; [discriminate|].
    simpl in Hrun.
    destruct (Program_fromhex (solution cs)) as [e|sol]; [discriminate|].
    simpl in Hrun.
    destruct (get_nft_info nft_coin puzzle sol) as [e|nft_info].
    + apply (IH data); assumption.
    + destruct (decide (owner nft_info <> bytes_hex ph)) as [Hne|Heq].
      * apply (IH data); assumption.
      * apply (IH _ Hrun). apply Forall_app. split; [exact Hdata|].
        constructor; [|constructor].
        exists nft_info. split; [reflexivity|].
        destruct (decide (owner nft_info = bytes_hex ph)); [assumption|contradiction].
Qed.

(** C3: a coin whose extraction succeeds with an owner other than the hex
    of the queried puzzle hash is passed over, without an error, and adds
    nothing to the answer; so every entry of an answer of [list_nfts] is the
    dict of an NFT whose owner is the hex of the puzzle hash the address
    decodes to. *)
Theorem list_nfts_owner_filter (address : string) (chain : Chain) (w : World) :
  (forall ph cr cs rows data nft_coin puzzle sol nft_info,
     Coin_from_json_dict (coin cr) = inr nft_coin ->
     Program_fromhex (puzzle_reveal cs) = inr puzzle ->
     Program_fromhex (solution cs) = inr sol ->
     get_nft_info nft_coin puzzle sol = inr nft_info ->
     owner nft_info <> bytes_hex ph ->
     list_nfts_loop ph ((cr, cs) :: rows) data = list_nfts_loop ph rows data)
  /\ (forall v,
        fst (list_nfts address chain w) = inr v ->
        exists ph data,
          decode_address address (network_prefix chain) = inr ph /\
          v = VNfts data /\
          Forall (owned_by ph) data).
Proof.
  split.
  - intros ph cr cs rows data nft_coin puzzle sol nft_info Hc Hp Hs Hg Hne.
    simpl. rewrite Hc. simpl. rewrite Hp. simpl. rewrite Hs. simpl. rewrite Hg.
    destruct (decide (owner nft_info <> bytes_hex ph)); [reflexivity|contradiction].
  - intros v Hrun.
    unfold list_nfts, bind, lift, await_rpc, ret in Hrun.
    destruct (decode_address address (network_prefix chain)) as [e|ph];
      [discriminate|].
    destruct (settings_NFT_CHAIN_START_HEIGHT !! network_name chain) as [h|];
      [|discriminate].
    destruct (get_coin_records_by_hint (client chain) ph false h) as [e|coin_records];
      [discriminate|].
    destruct (comprehension (puzzle_and_solution_call chain) coin_records)
      as [e|calls]; [discriminate|].
    destruct (gather calls _) as [[e|pzs] w2]; [discriminate|].
    destruct (list_nfts_loop ph (zip coin_records pzs) []) as [e|data] eqn:Hloop;
      [discriminate|].
    simpl in Hrun. injection Hrun as <-.
    exists ph, data. split; [reflexivity|split; [reflexivity|]].
    apply (list_nfts_loop_owned _ _ _ _ Hloop). constructor.
Qed.

(** [gather] over the calls of a batch in which the backend fails for some
    coin raises the failure of one of the coins. *)
Lemma gather_calls_fail (chain : Chain) (coin_records : list CoinRecord)
    (calls : list (M CoinSpend)) (w : World) :
  Forall2 (fun cr aw => puzzle_and_solution_call chain cr = inr aw) coin_records calls ->
  Exists (fun cr => exists coin_id e,
            hexstr_to_bytes (cj_parent_coin_info (coin cr)) = inr coin_id /\
            get_puzzle_and_solution (client chain) coin_id (confirmed_block_index cr)
            = inl e) coin_records ->
  exists cr coin_id e,
    cr ∈ coin_records /\
    hexstr_to_bytes (cj_parent_coin_info (coin cr)) = inr coin_id /\
    get_puzzle_and_solution (client chain) coin_id (confirmed_block_index cr) = inl e /\
    fst (gather calls w) = inl e.
Proof.
  intros Hcalls. revert w.
  induction Hcalls as [|cr aw crs aws Hcall _ IH]; intros w Hex.
  - inversion Hex.
  - apply call_shape in Hcall as (coin_id & Hid & ->).
    cbn [gather]. unfold await_rpc.
    destruct (get_puzzle_and_solution (client chain) coin_id (confirmed_block_index cr))
      as [e|cs] eqn:Hans.
    + exists cr, coin_id, e. repeat split; [left | exact Hid | exact Hans].
    + assert (Htail : Exists (fun cr => exists coin_id e,
                hexstr_to_bytes (cj_parent_coin_info (coin cr)) = inr coin_id /\
                get_puzzle_and_solution (client chain) coin_id (confirmed_block_index cr)
                = inl e) crs).
      { inversion Hex as [? ? (coin_id' & e' & Hid' & Hans')|]; [|assumption].
        congruence. }
      match goal with
      | |- context [gather aws ?w1] =>
          destruct (IH w1 Htail) as (cr' & coin_id' & e & Hin & Hid' & Hans' & Hg);
          destruct (gather aws w1) as [[e0|l] w2]
      end; simpl in Hg; [|discriminate].
      injection Hg as ->.
      exists cr', coin_id', e. repeat split; [right; exact Hin | exact Hid' | exact Hans'].
Qed.

(** C2 (as amended): [list_nfts] awaits all the [get_puzzle_and_solution]
    calls of a batch together and catches nothing around them.  When the
    backend fails for one coin of the batch, the whole request fails with the
    failure of one of the coins, and no listing is returned: no sibling coin
    reaches the extraction. *)
Theorem list_nfts_rpc_failure_aborts (address : string) (chain : Chain) (w : World)
    (ph : bytes) (h : Z) (coin_records : list CoinRecord) :
  decode_address address (network_prefix chain) = inr ph ->
  settings_NFT_CHAIN_START_HEIGHT !! network_name chain = Some h ->
  get_coin_records_by_hint (client chain) ph false h = inr coin_records ->
  Forall (fun cr => exists coin_id,
            hexstr_to_bytes (cj_parent_coin_info (coin cr)) = inr coin_id)
         coin_records ->
  Exists (fun cr => exists coin_id e,
            hexstr_to_bytes (cj_parent_coin_info (coin cr)) = inr coin_id /\
            get_puzzle_and_solution (client chain) coin_id (confirmed_block_index cr)
            = inl e) coin_records ->
  exists cr coin_id e,
    cr ∈ coin_records /\
    hexstr_to_bytes (cj_parent_coin_info (coin cr)) = inr coin_id /\
    get_puzzle_and_solution (client chain) coin_id (confirmed_block_index cr) = inl e /\
    fst (list_nfts address chain w) = inl e.
Proof.
  intros Ha Hh Hr Hids Hfail.
  destruct (comprehension_total (puzzle_and_solution_call chain) coin_records)
    as [calls Hcalls].
  { eapply Forall_impl; [exact Hids|]. intros cr [coin_id Hid].
    unfold puzzle_and_solution_call. rewrite Hid. simpl. eexists. reflexivity. }
  rewrite (list_nfts_steps _ _ w _ _ _ _ Ha Hh Hr Hcalls).
  match goal with
  | |- context [gather calls ?w1] =>
      destruct (gather_calls_fail chain coin_records calls w1
                  (comprehension_inr _ _ _ Hcalls) Hfail)
        as (cr & coin_id & e & Hin & Hid & Hans & Hg);
      destruct (gather calls w1) as [[e0|pzs] w2]
  end; simpl in Hg; [|discriminate].
  injection Hg as ->.
  exists cr, coin_id, e. repeat split; assumption.
Qed.

Lemma decode_address_with_extractor (g : Coin -> Program -> Program -> exn + NFTInfo) :
  @decode_address (with_extractor package g) = @decode_address package.
Proof. reflexivity. Qed.

Lemma call_with_extractor (g : Coin -> Program -> Program -> exn + NFTInfo) :
  @puzzle_and_solution_call (with_extractor package g)
  = @puzzle_and_solution_call package.
Proof. reflexivity. Qed.

Lemma list_nfts_loop_demote (ph : bytes) (rows : list (CoinRecord * CoinSpend))
    (data : list json) :
  @list_nfts_loop (with_extractor package (fun c p s => demote (get_nft_info c p s)))
    ph rows data
  = list_nfts_loop ph rows data.
Proof.
  revert data. induction rows as [|[cr cs] rows IH]; intros data; [reflexivity|].
  cbn [list_nfts_loop with_extractor Coin_from_json_dict Program_fromhex
       get_nft_info NFTInfo_to_dict].
  destruct (Coin_from_json_dict (coin cr)) as [e|nft_coin]; [reflexivity|].
  cbn [and_then].
  destruct (Program_fromhex (puzzle_reveal cs)) as [e|puzzle]; [reflexivity|].
  cbn [and_then].
  destruct (Program_fromhex (solution cs)) as [e|sol]; [reflexivity|].
  cbn [and_then].
  destruct (get_nft_info nft_coin puzzle sol) as [e|nft_info]; cbn [demote].
  - destruct e; apply IH.
  - destruct (decide (owner nft_info <> bytes_hex ph)); apply IH.
Qed.

Lemma list_nfts_quiet (address : string) (chain : Chain) :
  quiet (list_nfts address chain).
Proof.
  intros w. unfold list_nfts, bind, lift, await_rpc, ret.
  destruct (decode_address address (network_prefix chain)) as [e|ph];
    [split; reflexivity|].
  destruct (settings_NFT_CHAIN_START_HEIGHT !! network_name chain) as [h|];
    [|split; reflexivity].
  destruct (get_coin_records_by_hint (client chain) ph false h) as [e|coin_records];
    [split; reflexivity|].
  destruct (comprehension (puzzle_and_solution_call chain) coin_records)
    as [e|calls] eqn:Hcalls; [split; reflexivity|].
  match goal with
  | |- context [gather calls ?w1] =>
      pose proof (gather_quiet calls (calls_quiet _ _ _ Hcalls) w1) as [Hl Hc];
      destruct (gather calls w1) as [[e|pzs] w2]
  end; simpl in Hl, Hc; [split; assumption|].
  destruct (list_nfts_loop ph (zip coin_records pzs) []); split; assumption.
Qed.

(** C5 (as amended): the loop of [list_nfts] catches every exception of the
    extraction alike and goes on to the next coin; no log line is written
    and nothing is counted.  A version failure is handled exactly as a plain
    non-match: reporting it as one changes neither the answer nor the
    world. *)
Theorem extraction_failures_skipped_alike (address : string) (chain : Chain) (w : World) :
  (forall ph cr cs rows data nft_coin puzzle sol e,
     Coin_from_json_dict (coin cr) = inr nft_coin ->
     Program_fromhex (puzzle_reveal cs) = inr puzzle ->
     Program_fromhex (solution cs) = inr sol ->
     get_nft_info nft_coin puzzle sol = inl e ->
     list_nfts_loop ph ((cr, cs) :: rows) data = list_nfts_loop ph rows data)
  /\ @list_nfts (with_extractor package (fun c p s => demote (get_nft_info c p s)))
       address chain w
     = list_nfts address chain w
  /\ log (snd (list_nfts address chain w)) = log w.
Proof.
  split; [|split].
  - intros ph cr cs rows data nft_coin puzzle sol e Hc Hp Hs Hg.
    simpl. rewrite Hc. simpl. rewrite Hp. simpl. rewrite Hs. simpl. rewrite Hg.
    reflexivity.
  - unfold list_nfts.
    rewrite decode_address_with_extractor, call_with_extractor.
    cbn [with_extractor settings_NFT_CHAIN_START_HEIGHT].
    unfold bind, lift, await_rpc, ret.
    destruct (decode_address address (network_prefix chain)) as [e|ph]; [reflexivity|].
    destruct (settings_NFT_CHAIN_START_HEIGHT !! network_name chain) as [h|];
      [|reflexivity].
    destruct (get_coin_records_by_hint (client chain) ph false h) as [e|coin_records];
      [reflexivity|].
    destruct (comprehension (puzzle_and_solution_call chain) coin_records)
      as [e|calls]; [reflexivity|].
    destruct (gather calls _) as [[e|pzs] w2]; [reflexivity|].
    rewrite list_nfts_loop_demote. reflexivity.
  - apply list_nfts_quiet.
Qed.

End ApiProperties.

(** ** The properties on the test bench *)

Section BenchRuns.

Local Open Scope list_scope.

Local Abbreviation pkg := Bench.package.
Local Abbreviation aabb := [Byte.xaa; Byte.xbb].

Lemma query_balance_sums_unspent_witness :
  fst (@query_balance pkg Bench.address Bench.good Bench.world0)
  = inr (VBalance 1750000000250).
Proof.
  destruct (@query_balance_sums_unspent pkg Bench.address Bench.good Bench.world0
              aabb Bench.owned) as [H _].
  - vm_compute. reflexivity.
  - vm_compute. reflexivity.
  - rewrite H. reflexivity.
Defined.

Lemma get_utxos_unspent_entries_witness :
  exists data,
    fst (@get_utxos pkg Bench.address Bench.good Bench.world0) = inr (VUtxos data) /\
    VUtxos data = Bench.utxos_answer.
Proof.
  destruct (@get_utxos_unspent_entries pkg Bench.address Bench.good Bench.world0
              aabb Bench.owned) as (data & Hrun & Hdata & _).
  - vm_compute. reflexivity.
  - vm_compute. reflexivity.
  - exists data. split; [exact Hrun|]. rewrite Hdata. vm_compute. reflexivity.
Defined.

Lemma cache_keys_and_ttls_witness :
  @route_utxos pkg (Bench.chains (inr Bench.nft_spend)) 100 Bench.address "0x01" Bench.world0
  = (inr Bench.utxos_answer, Bench.world_cached "utxos:xch1aabb" Bench.utxos_answer 110).
Proof.
  destruct (@cache_keys_and_ttls pkg (Bench.chains (inr Bench.nft_spend)) 100
              Bench.address "0x01" Bench.good Bench.world0 Bench.world_after_owned
              Bench.utxos_answer) as (H & _).
  - vm_compute. reflexivity.
  - rewrite H.
    + vm_compute. reflexivity.
    + vm_compute. reflexivity.
    + vm_compute. reflexivity.
Defined.

(** On the test chain the address has the wrong prefix, yet within the time
    to live the answer of the main chain comes back. *)
Lemma cache_key_ignores_chain_witness :
  @route_utxos pkg (Bench.chains (inr Bench.nft_spend)) 105 Bench.address "0x02"
    Bench.world0
  = (inl (HTTPException 400 "Invalid Address"), Bench.world0)
  /\ @route_utxos pkg (Bench.chains (inr Bench.nft_spend)) 105 Bench.address "0x02"
       (Bench.world_cached "utxos:xch1aabb" Bench.utxos_answer 110)
     = (inr Bench.utxos_answer,
        Bench.world_cached "utxos:xch1aabb" Bench.utxos_answer 110).
Proof.
  split; [vm_compute; reflexivity|].
  destruct (@cache_key_ignores_chain pkg (Bench.chains (inr Bench.nft_spend)) 100 105
              Bench.address "0x01" "0x02" Bench.good Bench.testnet Bench.world0
              (Bench.world_cached "utxos:xch1aabb" Bench.utxos_answer 110)
              Bench.utxos_answer) as (_ & H & _).
  - vm_compute. reflexivity.
  - vm_compute. reflexivity.
  - apply H.
    + vm_compute. reflexivity.
    + lia.
    + vm_compute. reflexivity.
Defined.

Lemma chia_rpc_allow_list_witness :
  (exists detail,
     @route_chia_rpc pkg (Bench.chains (inr Bench.nft_spend)) "push_tx" None "0x01"
       Bench.world0
     = (inl (HTTPException 400 detail), Bench.world0))
  /\ @route_chia_rpc pkg (Bench.chains (inr Bench.nft_spend)) "get_blockchain_state"
       None "0x01" Bench.world0
     = (inr (VJson (JDict [("success", JBool true);
                           ("method", JStr "get_blockchain_state")])),
        {| rpc_trace := [("0x01", Call_raw_fetch "get_blockchain_state" None)];
           log := []; cache := ∅ |}).
Proof.
  split.
  - destruct (@chia_rpc_allow_list pkg (Bench.chains (inr Bench.nft_spend)) "push_tx"
                None "0x01" Bench.world0) as [H _].
    apply H. simpl. intros Hin.
    repeat (apply elem_of_cons in Hin as [Hin|Hin]; [discriminate Hin|]).
    inversion Hin.
  - destruct (@chia_rpc_allow_list pkg (Bench.chains (inr Bench.nft_spend))
                "get_blockchain_state" None "0x01" Bench.world0) as [_ H].
    rewrite (H Bench.good).
    + reflexivity.
    + simpl. left.
    + vm_compute. reflexivity.
Defined.

Lemma list_nfts_owner_filter_witness :
  @list_nfts_loop pkg aabb [(Bench.record "0x03" 1 false 2200003, Bench.foreign_spend)] []
  = inr []
  /\ Forall (@owned_by pkg aabb)
       [Bench.nft_dict; Bench.nft_dict; Bench.nft_dict; Bench.nft_dict].
Proof.
  destruct (@list_nfts_owner_filter pkg Bench.address
              (Bench.mainnet (inr Bench.foreign_spend)) Bench.world0) as [Hskip Hall].
  split.
  - rewrite (Hskip aabb (Bench.record "0x03" 1 false 2200003) Bench.foreign_spend [] []
               {| coin_parent_coin_info := [Byte.x03]; coin_puzzle_hash := aabb;
                  coin_amount := 1 |}
               (Pair (Atom [Byte.x01]) (Atom [Byte.xcc; Byte.xdd])) (Atom [])
               {| launcher_id := "01"; owner := "ccdd"; current_owner_did := None;
                  metadata_uris := []; metadata_hash := ""; license_uris := [];
                  royalty_address := ""; royalty_percentage := 0;
                  transfer_program_hash := "" |}).
    + reflexivity.
    + vm_compute. reflexivity.
    + vm_compute. reflexivity.
    + vm_compute. reflexivity.
    + vm_compute. reflexivity.
    + vm_compute. discriminate.
  - destruct (Hall (VNfts [Bench.nft_dict; Bench.nft_dict; Bench.nft_dict; Bench.nft_dict]))
      as (ph & data & Hph & Hv & Hdata).
    + vm_compute. reflexivity.
    + vm_compute in Hph. injection Hph as <-. injection Hv as <-. exact Hdata.
Defined.

(** C1: on a batch of five coins whose third puzzle is cut short, the other
    four being NFTs of the queried owner, [list_nfts] raises the decoding
    error of the third coin and returns no listing: [Program.fromhex] runs
    before the [try] of the loop. *)
Theorem list_nfts_truncated_puzzle_escapes :
  Codec.fromhex (puzzle_reveal Bench.truncated_spend) = inl MalformedEncoding
  /\ fst (@list_nfts pkg Bench.address (Bench.mainnet (inr Bench.truncated_spend))
            Bench.world0)
     = inl MalformedEncoding
  /\ fst (@list_nfts pkg Bench.address (Bench.mainnet (inr Bench.plain_spend))
            Bench.world0)
     = inr (VNfts [Bench.nft_dict; Bench.nft_dict; Bench.nft_dict; Bench.nft_dict]).
Proof. repeat split; vm_compute; reflexivity. Qed.

(** The batch in which the backend fails for the third coin raises, though
    its four siblings are NFTs of the queried owner. *)
Lemma list_nfts_rpc_failure_counterexample :
  fst (@list_nfts pkg Bench.address (Bench.mainnet (inr Bench.plain_spend)) Bench.world0)
  = inr (VNfts [Bench.nft_dict; Bench.nft_dict; Bench.nft_dict; Bench.nft_dict])
  /\ fst (@list_nfts pkg Bench.address (Bench.mainnet (inl (RpcError "timeout")))
            Bench.world0)
     = inl (RpcError "timeout")
  /\ ~ (exists data,
          fst (@list_nfts pkg Bench.address (Bench.mainnet (inl (RpcError "timeout")))
                 Bench.world0)
          = inr (VNfts data)).
Proof.
  split; [vm_compute; reflexivity|].
  split; [vm_compute; reflexivity|].
  intros [data H]. vm_compute in H. discriminate H.
Qed.

Lemma list_nfts_rpc_failure_aborts_witness :
  exists e,
    fst (@list_nfts pkg Bench.address (Bench.mainnet (inl (RpcError "timeout")))
           Bench.world0)
    = inl e.
Proof.
  destruct (@list_nfts_rpc_failure_aborts pkg Bench.address
              (Bench.mainnet (inl (RpcError "timeout"))) Bench.world0
              aabb 2181000 Bench.hinted)
    as (cr & coin_id & e & _ & _ & _ & H).
  - vm_compute. reflexivity.
  - vm_compute. reflexivity.
  - vm_compute. reflexivity.
  - repeat constructor; eexists; vm_compute; reflexivity.
  - right. right. left. exists [Byte.x03], (RpcError "timeout").
    split; vm_compute; reflexivity.
  - exists e. exact H.
Defined.

(** The extraction of the third coin fails with [UnsupportedNFTVersion]; the
    run writes no log line, and its answer and its world are those of the run
    in which the third coin is a plain non-match. *)
Lemma unsupported_version_counterexample :
  Bench.get_nft_info
    {| coin_parent_coin_info := [Byte.x03]; coin_puzzle_hash := aabb; coin_amount := 1 |}
    (Pair (Atom [Byte.x01]) (Pair (Atom [Byte.x02]) (Atom [Byte.x03]))) (Atom [])
  = inl UnsupportedNFTVersion
  /\ Codec.fromhex (puzzle_reveal Bench.unsupported_spend)
     = inr (Pair (Atom [Byte.x01]) (Pair (Atom [Byte.x02]) (Atom [Byte.x03])))
  /\ fst (@list_nfts pkg Bench.address (Bench.mainnet (inr Bench.unsupported_spend))
            Bench.world0)
     = inr (VNfts [Bench.nft_dict; Bench.nft_dict; Bench.nft_dict; Bench.nft_dict])
  /\ log (snd (@list_nfts pkg Bench.address (Bench.mainnet (inr Bench.unsupported_spend))
                 Bench.world0))
     = []
  /\ @list_nfts pkg Bench.address (Bench.mainnet (inr Bench.unsupported_spend))
       Bench.world0
     = @list_nfts pkg Bench.address (Bench.mainnet (inr Bench.plain_spend)) Bench.world0.
Proof. repeat split; vm_compute; reflexivity. Qed.

Lemma extraction_failures_skipped_alike_witness :
  @list_nfts_loop pkg aabb
    [(Bench.record "0x03" 1 false 2200003, Bench.unsupported_spend)] []
  = inr []
  /\ log (snd (@list_nfts pkg Bench.address (Bench.mainnet (inr Bench.unsupported_spend))
                 Bench.world0))
     = [].
Proof.
  destruct (@extraction_failures_skipped_alike pkg Bench.address
              (Bench.mainnet (inr Bench.unsupported_spend)) Bench.world0)
    as (Hskip & _ & Hlog).
  split; [|exact Hlog].
  rewrite (Hskip aabb (Bench.record "0x03" 1 false 2200003) Bench.unsupported_spend [] []
             {| coin_parent_coin_info := [Byte.x03]; coin_puzzle_hash := aabb;
                coin_amount := 1 |}
             (Pair (Atom [Byte.x01]) (Pair (Atom [Byte.x02]) (Atom [Byte.x03])))
             (Atom []) UnsupportedNFTVersion).
  - reflexivity.
  - vm_compute. reflexivity.
  - vm_compute. reflexivity.
  - vm_compute. reflexivity.
  - vm_compute. reflexivity.
Defined.

End BenchRuns.

(** * Properties of the codec *)

Section CodecProperties.

Import Codec.
Local Open Scope list_scope.
Local Open Scope Z_scope.

Ltac zlia := Z.div_mod_to_equations; lia.

(** ** Bytes and integers *)

Lemma Z_of_byte_range (b : Byte.byte) : 0 <= Z_of_byte b < 256.
Proof.
  unfold Z_of_byte. pose proof (Byte.to_N_bounded b) as H. lia.
Qed.

Lemma Z_of_byte_of_Z (z : Z) : Z_of_byte (byte_of_Z z) = z mod 256.
Proof.
  unfold Z_of_byte, byte_of_Z.
  destruct (Byte.of_N (Z.to_N (z mod 256))) as [b|] eqn:Hb.
  - apply Byte.to_of_N in Hb. rewrite Hb. rewrite Z2N.id; [reflexivity | zlia].
  - apply Byte.of_N_None_iff in Hb. zlia.
Qed.

Lemma byte_of_Z_of_byte (b : Byte.byte) : byte_of_Z (Z_of_byte b) = b.
Proof.
  unfold byte_of_Z. pose proof (Z_of_byte_range b) as Hr.
  rewrite Z.mod_small by exact Hr. unfold Z_of_byte. rewrite N2Z.id.
  rewrite Byte.of_to_N. reflexivity.
Qed.

Lemma Z_of_byte_small (z : Z) : 0 <= z < 256 -> Z_of_byte (byte_of_Z z) = z.
Proof. intros H. rewrite Z_of_byte_of_Z. apply Z.mod_small. exact H. Qed.

Lemma Z_range_check (P : Z -> bool) (n : nat) :
  forallb (fun i => P (Z.of_nat i)) (seq 0 n) = true ->
  forall x, 0 <= x < Z.of_nat n -> P x = true.
Proof.
  intros H x Hx. rewrite forallb_forall in H.
  rewrite <- (Z2Nat.id x) by lia. apply H. apply in_seq. lia.
Qed.

(** The tag bits of a leading byte and the length bits below them do not
    overlap. *)
Lemma lor_tag (x : Z) :
  (0 <= x < 64 -> Z.lor 0x80 x = 0x80 + x) /\
  (0 <= x < 32 -> Z.lor 0xC0 x = 0xC0 + x) /\
  (0 <= x < 16 -> Z.lor 0xE0 x = 0xE0 + x) /\
  (0 <= x < 8 -> Z.lor 0xF0 x = 0xF0 + x) /\
  (0 <= x < 4 -> Z.lor 0xF8 x = 0xF8 + x).
Proof.
  repeat split; intros Hx; apply Z.eqb_eq.
  - apply (Z_range_check (fun x => Z.lor 0x80 x =? 0x80 + x) 64);
      [vm_compute; reflexivity | lia].
  - apply (Z_range_check (fun x => Z.lor 0xC0 x =? 0xC0 + x) 32);
      [vm_compute; reflexivity | lia].
  - apply (Z_range_check (fun x => Z.lor 0xE0 x =? 0xE0 + x) 16);
      [vm_compute; reflexivity | lia].
  - apply (Z_range_check (fun x => Z.lor 0xF0 x =? 0xF0 + x) 8);
      [vm_compute; reflexivity | lia].
  - apply (Z_range_check (fun x => Z.lor 0xF8 x =? 0xF8 + x) 4);
      [vm_compute; reflexivity | lia].
Qed.

Lemma land_mask (v : Z) :
  Z.land v 0x3F = v mod 64 /\ Z.land v 0x1F = v mod 32 /\
  Z.land v 0x0F = v mod 16 /\ Z.land v 0x07 = v mod 8 /\
  Z.land v 0x03 = v mod 4 /\ Z.land v 0xFF = v mod 256.
Proof.
  repeat split.
  - apply (Z.land_ones v 6). lia.
  - apply (Z.land_ones v 5). lia.
  - apply (Z.land_ones v 4). lia.
  - apply (Z.land_ones v 3). lia.
  - apply (Z.land_ones v 2). lia.
  - apply (Z.land_ones v 8). lia.
Qed.

Lemma shiftr_div (x : Z) :
  Z.shiftr x 8 = x / 256 /\ Z.shiftr x 16 = x / 65536 /\
  Z.shiftr x 24 = x / 16777216 /\ Z.shiftr x 32 = x / 4294967296.
Proof.
  repeat split; rewrite Z.shiftr_div_pow2 by lia; reflexivity.
Qed.

(** The length prefix in arithmetic. *)
Lemma atom_prefix_arith (size : Z) :
  0 <= size < 0x400000000 ->
  atom_prefix size =
    if size <? 0x40 then [byte_of_Z (0x80 + size)]
    else if size <? 0x2000 then
      [byte_of_Z (0xC0 + size / 256); byte_of_Z (size mod 256)]
    else if size <? 0x100000 then
      [byte_of_Z (0xE0 + size / 65536); byte_of_Z ((size / 256) mod 256);
       byte_of_Z (size mod 256)]
    else if size <? 0x8000000 then
      [byte_of_Z (0xF0 + size / 16777216); byte_of_Z ((size / 65536) mod 256);
       byte_of_Z ((size / 256) mod 256); byte_of_Z (size mod 256)]
    else
      [byte_of_Z (0xF8 + size / 4294967296); byte_of_Z ((size / 16777216) mod 256);
       byte_of_Z ((size / 65536) mod 256); byte_of_Z ((size / 256) mod 256);
       byte_of_Z (size mod 256)].
Proof.
  intros Hsize. unfold atom_prefix.
  destruct (shiftr_div size) as (-> & -> & -> & ->).
  pose proof (land_mask size) as (_ & _ & _ & _ & _ & ->).
  pose proof (land_mask (size / 256)) as (_ & _ & _ & _ & _ & ->).
  pose proof (land_mask (size / 65536)) as (_ & _ & _ & _ & _ & ->).
  pose proof (land_mask (size / 16777216)) as (_ & _ & _ & _ & _ & ->).
  destruct (Z.ltb_spec size 0x40) as [H1|H1].
  { destruct (lor_tag size) as (-> & _); [reflexivity | lia]. }
  destruct (Z.ltb_spec size 0x2000) as [H2|H2].
  { destruct (lor_tag (size / 256)) as (_ & -> & _); [reflexivity | zlia]. }
  destruct (Z.ltb_spec size 0x100000) as [H3|H3].
  { destruct (lor_tag (size / 65536)) as (_ & _ & -> & _); [reflexivity | zlia]. }
  destruct (Z.ltb_spec size 0x8000000) as [H4|H4].
  { destruct (lor_tag (size / 16777216)) as (_ & _ & _ & -> & _); [reflexivity | zlia]. }
  destruct (lor_tag (size / 4294967296)) as (_ & _ & _ & _ & ->); [reflexivity | zlia].
Qed.

(** ** Length prefixes *)

Lemma byte_of_Z_eq (z : Z) (b : Byte.byte) : z = Z_of_byte b -> byte_of_Z z = b.
Proof. intros ->. apply byte_of_Z_of_byte. Qed.

(** Every length below 2^34 has a prefix, which reads back as that length
    and is the shortest for it. *)
Lemma prefix_complete (size : Z) :
  0 <= size < 0x400000000 ->
  exists b pre extra mask least,
    atom_prefix size = b :: pre /\
    MAX_SINGLE_BYTE < Z_of_byte b < 0xFC /\
    prefix_shape (Z_of_byte b) = (extra, mask, least) /\
    length pre = extra /\
    int_from_bytes (byte_of_Z (Z.land (Z_of_byte b) mask) :: pre) = size /\
    least <= size.
Proof.
  intros Hsize. rewrite (atom_prefix_arith size Hsize).
  unfold MAX_SINGLE_BYTE, prefix_shape, int_from_bytes.
  destruct (Z.ltb_spec size 0x40) as [H1|H1];
    [|destruct (Z.ltb_spec size 0x2000) as [H2|H2];
      [|destruct (Z.ltb_spec size 0x100000) as [H3|H3];
        [|destruct (Z.ltb_spec size 0x8000000) as [H4|H4]]]].
  - exists (byte_of_Z (0x80 + size)), [], 0%nat, 0x3F, 0.
    rewrite (Z_of_byte_small (0x80 + size)) by lia.
    destruct (Z.ltb_spec (0x80 + size) 0xC0); [|lia].
    pose proof (land_mask (0x80 + size)) as (-> & _).
    cbn [foldl length]. rewrite Z_of_byte_of_Z.
    repeat split; try reflexivity; zlia.
  - exists (byte_of_Z (0xC0 + size / 256)), [byte_of_Z (size mod 256)],
      1%nat, 0x1F, 0x40.
    rewrite (Z_of_byte_small (0xC0 + size / 256)) by zlia.
    destruct (Z.ltb_spec (0xC0 + size / 256) 0xC0); [zlia|].
    destruct (Z.ltb_spec (0xC0 + size / 256) 0xE0); [|zlia].
    pose proof (land_mask (0xC0 + size / 256)) as (_ & -> & _).
    cbn [foldl length]. rewrite !Z_of_byte_of_Z.
    repeat split; try reflexivity; zlia.
  - exists (byte_of_Z (0xE0 + size / 65536)),
      [byte_of_Z ((size / 256) mod 256); byte_of_Z (size mod 256)],
      2%nat, 0x0F, 0x2000.
    rewrite (Z_of_byte_small (0xE0 + size / 65536)) by zlia.
    destruct (Z.ltb_spec (0xE0 + size / 65536) 0xC0); [zlia|].
    destruct (Z.ltb_spec (0xE0 + size / 65536) 0xE0); [zlia|].
    destruct (Z.ltb_spec (0xE0 + size / 65536) 0xF0); [|zlia].
    pose proof (land_mask (0xE0 + size / 65536)) as (_ & _ & -> & _).
    cbn [foldl length]. rewrite !Z_of_byte_of_Z.
    repeat split; try reflexivity; zlia.
  - exists (byte_of_Z (0xF0 + size / 16777216)),
      [byte_of_Z ((size / 65536) mod 256); byte_of_Z ((size / 256) mod 256);
       byte_of_Z (size mod 256)],
      3%nat, 0x07, 0x100000.
    rewrite (Z_of_byte_small (0xF0 + size / 16777216)) by zlia.
    destruct (Z.ltb_spec (0xF0 + size / 16777216) 0xC0); [zlia|].
    destruct (Z.ltb_spec (0xF0 + size / 16777216) 0xE0); [zlia|].
    destruct (Z.ltb_spec (0xF0 + size / 16777216) 0xF0); [zlia|].
    destruct (Z.ltb_spec (0xF0 + size / 16777216) 0xF8); [|zlia].
    pose proof (land_mask (0xF0 + size / 16777216)) as (_ & _ & _ & -> & _).
    cbn [foldl length]. rewrite !Z_of_byte_of_Z.
    repeat split; try reflexivity; zlia.
  - exists (byte_of_Z (0xF8 + size / 4294967296)),
      [byte_of_Z ((size / 16777216) mod 256); byte_of_Z ((size / 65536) mod 256);
       byte_of_Z ((size / 256) mod 256); byte_of_Z (size mod 256)],
      4%nat, 0x03, 0x8000000.
    rewrite (Z_of_byte_small (0xF8 + size / 4294967296)) by zlia.
    destruct (Z.ltb_spec (0xF8 + size / 4294967296) 0xC0); [zlia|].
    destruct (Z.ltb_spec (0xF8 + size / 4294967296) 0xE0); [zlia|].
    destruct (Z.ltb_spec (0xF8 + size / 4294967296) 0xF0); [zlia|].
    destruct (Z.ltb_spec (0xF8 + size / 4294967296) 0xF8); [zlia|].
    pose proof (land_mask (0xF8 + size / 4294967296)) as (_ & _ & _ & _ & -> & _).
    cbn [foldl length]. rewrite !Z_of_byte_of_Z.
    repeat split; try reflexivity; zlia.
Qed.

(** Conversely a prefix that is the shortest for the length it reads as is
    the prefix of that length. *)
Lemma prefix_sound (b : Byte.byte) (pre : bytes) (extra : nat) (mask least : Z) :
  MAX_SINGLE_BYTE < Z_of_byte b < 0xFC ->
  prefix_shape (Z_of_byte b) = (extra, mask, least) ->
  length pre = extra ->
  least <= int_from_bytes (byte_of_Z (Z.land (Z_of_byte b) mask) :: pre) ->
  atom_prefix (int_from_bytes (byte_of_Z (Z.land (Z_of_byte b) mask) :: pre)) = b :: pre
  /\ 0 <= int_from_bytes (byte_of_Z (Z.land (Z_of_byte b) mask) :: pre) < 0x400000000.
Proof.
  unfold MAX_SINGLE_BYTE, prefix_shape, int_from_bytes.
  intros Hv Hshape Hlen.
  destruct (Z.ltb_spec (Z_of_byte b) 0xC0) as [H1|H1];
    [|destruct (Z.ltb_spec (Z_of_byte b) 0xE0) as [H2|H2];
      [|destruct (Z.ltb_spec (Z_of_byte b) 0xF0) as [H3|H3];
        [|destruct (Z.ltb_spec (Z_of_byte b) 0xF8) as [H4|H4]]]];
    injection Hshape as <- <- <-.
  - destruct pre as [|]; [|discriminate Hlen].
    pose proof (land_mask (Z_of_byte b)) as (-> & _).
    cbn [foldl]. rewrite Z_of_byte_of_Z.
    set (size := 0 * 256 + (Z_of_byte b mod 64) mod 256).
    intros Hleast. assert (Hsize : size = Z_of_byte b - 0x80) by (subst size; zlia).
    split; [|lia].
    rewrite atom_prefix_arith by lia.
    destruct (Z.ltb_spec size 0x40); [|lia].
    f_equal. apply byte_of_Z_eq. lia.
  - destruct pre as [|b1 [|]]; try discriminate Hlen.
    pose proof (Z_of_byte_range b1) as Hb1.
    pose proof (land_mask (Z_of_byte b)) as (_ & -> & _).
    cbn [foldl]. rewrite Z_of_byte_of_Z.
    set (size := (0 * 256 + (Z_of_byte b mod 32) mod 256) * 256 + Z_of_byte b1).
    intros Hleast.
    assert (Hsize : size = (Z_of_byte b - 0xC0) * 256 + Z_of_byte b1) by (subst size; zlia).
    split; [|lia].
    rewrite atom_prefix_arith by lia.
    destruct (Z.ltb_spec size 0x40); [lia|].
    destruct (Z.ltb_spec size 0x2000); [|lia].
    f_equal; [|f_equal]; apply byte_of_Z_eq; zlia.
  - destruct pre as [|b1 [|b2 [|]]]; try discriminate Hlen.
    pose proof (Z_of_byte_range b1) as Hb1. pose proof (Z_of_byte_range b2) as Hb2.
    pose proof (land_mask (Z_of_byte b)) as (_ & _ & -> & _).
    cbn [foldl]. rewrite Z_of_byte_of_Z.
    set (size := ((0 * 256 + (Z_of_byte b mod 16) mod 256) * 256 + Z_of_byte b1) * 256
                 + Z_of_byte b2).
    intros Hleast.
    assert (Hsize : size = ((Z_of_byte b - 0xE0) * 256 + Z_of_byte b1) * 256 + Z_of_byte b2)
      by (subst size; zlia).
    split; [|lia].
    rewrite atom_prefix_arith by lia.
    destruct (Z.ltb_spec size 0x40); [lia|].
    destruct (Z.ltb_spec size 0x2000); [lia|].
    destruct (Z.ltb_spec size 0x100000); [|lia].
    f_equal; [|f_equal; [|f_equal]]; apply byte_of_Z_eq; zlia.
  - destruct pre as [|b1 [|b2 [|b3 [|]]]]; try discriminate Hlen.
    pose proof (Z_of_byte_range b1) as Hb1. pose proof (Z_of_byte_range b2) as Hb2.
    pose proof (Z_of_byte_range b3) as Hb3.
    pose proof (land_mask (Z_of_byte b)) as (_ & _ & _ & -> & _).
    cbn [foldl]. rewrite Z_of_byte_of_Z.
    set (size := (((0 * 256 + (Z_of_byte b mod 8) mod 256) * 256 + Z_of_byte b1) * 256
                  + Z_of_byte b2) * 256 + Z_of_byte b3).
    intros Hleast.
    assert (Hsize : size = (((Z_of_byte b - 0xF0) * 256 + Z_of_byte b1) * 256
                            + Z_of_byte b2) * 256 + Z_of_byte b3)
      by (subst size; zlia).
    split; [|lia].
    rewrite atom_prefix_arith by lia.
    destruct (Z.ltb_spec size 0x40); [lia|].
    destruct (Z.ltb_spec size 0x2000); [lia|].
    destruct (Z.ltb_spec size 0x100000); [lia|].
    destruct (Z.ltb_spec size 0x8000000); [|lia].
    f_equal; [|f_equal; [|f_equal; [|f_equal]]]; apply byte_of_Z_eq; zlia.
  - destruct pre as [|b1 [|b2 [|b3 [|b4 [|]]]]]; try discriminate Hlen.
    pose proof (Z_of_byte_range b1) as Hb1. pose proof (Z_of_byte_range b2) as Hb2.
    pose proof (Z_of_byte_range b3) as Hb3. pose proof (Z_of_byte_range b4) as Hb4.
    pose proof (land_mask (Z_of_byte b)) as (_ & _ & _ & _ & -> & _).
    cbn [foldl]. rewrite Z_of_byte_of_Z.
    set (size := ((((0 * 256 + (Z_of_byte b mod 4) mod 256) * 256 + Z_of_byte b1) * 256
                   + Z_of_byte b2) * 256 + Z_of_byte b3) * 256 + Z_of_byte b4).
    intros Hleast.
    assert (Hsize : size = ((((Z_of_byte b - 0xF8) * 256 + Z_of_byte b1) * 256
                             + Z_of_byte b2) * 256 + Z_of_byte b3) * 256 + Z_of_byte b4)
      by (subst size; zlia).
    split; [|lia].
    rewrite atom_prefix_arith by lia.
    destruct (Z.ltb_spec size 0x40); [lia|].
    destruct (Z.ltb_spec size 0x2000); [lia|].
    destruct (Z.ltb_spec size 0x100000); [lia|].
    destruct (Z.ltb_spec size 0x8000000); [lia|].
    f_equal; [|f_equal; [|f_equal; [|f_equal; [|f_equal]]]]; apply byte_of_Z_eq; zlia.
Qed.

(** ** Reading one atom *)

Lemma self_encoding_inv (a : bytes) :
  self_encoding a = true ->
  exists x, a = [x] /\ Z_of_byte x <= MAX_SINGLE_BYTE.
Proof.
  destruct a as [|x [|y a]]; simpl; try discriminate.
  intros H. exists x. split; [reflexivity | lia].
Qed.

(** The encoding of an atom, followed by anything, reads back as the atom
    and what follows; its leading byte is not the pair marker. *)
Lemma read_atom_encode (strict : bool) (a rest : bytes) :
  Z.of_nat (length a) < 0x400000000 ->
  exists b tl,
    encode_atom a = b :: tl /\
    Z_of_byte b <> CONS_BOX_MARKER /\
    read_atom strict b (tl ++ rest) = Some (a, rest).
Proof.
  intros Hlen. unfold encode_atom.
  destruct (self_encoding a) eqn:Hself.
  - apply self_encoding_inv in Hself as (x & -> & Hx).
    exists x, []. unfold CONS_BOX_MARKER, MAX_SINGLE_BYTE in *.
    split; [reflexivity|]. split; [lia|].
    unfold read_atom, MAX_SINGLE_BYTE.
    destruct (Z.leb_spec (Z_of_byte x) 0x7F); [reflexivity | lia].
  - destruct (prefix_complete (Z.of_nat (length a)))
      as (b & pre & extra & mask & least & Hpre & Hv & Hshape & Hextra & Hsize & Hleast);
      [lia|].
    exists b, (pre ++ a). rewrite Hpre. unfold CONS_BOX_MARKER, MAX_SINGLE_BYTE in *.
    split; [reflexivity|]. split; [lia|].
    unfold read_atom, MAX_SINGLE_BYTE.
    destruct (Z.leb_spec (Z_of_byte b) 0x7F); [lia|].
    destruct (Z.leb_spec 0xFC (Z_of_byte b)); [lia|].
    rewrite Hshape. subst extra. rewrite <- app_assoc.
    destruct (Nat.ltb_spec (length (pre ++ a ++ rest)) (length pre)) as [Hshort|_].
    { rewrite length_app in Hshort. lia. }
    rewrite take_app_length, drop_app_length, Hsize.
    destruct (Z.ltb_spec (Z.of_nat (length (a ++ rest))) (Z.of_nat (length a)))
      as [Hshort|_].
    { rewrite length_app in Hshort. lia. }
    rewrite Nat2Z.id, take_app_length, drop_app_length, Hself.
    destruct (Z.ltb_spec (Z.of_nat (length a)) least); [lia|].
    rewrite andb_false_r. reflexivity.
Qed.

(** What the strict reader accepts is the encoding of the atom it returns. *)
Lemma read_atom_strict_sound (b : Byte.byte) (bs a rest : bytes) :
  Z_of_byte b <> CONS_BOX_MARKER ->
  read_atom true b bs = Some (a, rest) ->
  b :: bs = encode_atom a ++ rest /\ Z.of_nat (length a) < 0x400000000.
Proof.
  unfold read_atom, CONS_BOX_MARKER, MAX_SINGLE_BYTE. intros Hmark.
  destruct (Z.leb_spec (Z_of_byte b) 0x7F) as [Hsmall|Hbig].
  { intros [= <- <-]. unfold encode_atom, self_encoding, MAX_SINGLE_BYTE.
    destruct (Z.leb_spec (Z_of_byte b) 0x7F); [|lia].
    split; [reflexivity | simpl; lia]. }
  destruct (Z.leb_spec 0xFC (Z_of_byte b)) as [|Hv]; [discriminate|].
  destruct (prefix_shape (Z_of_byte b)) as [[extra mask] least] eqn:Hshape.
  destruct (Nat.ltb_spec (length bs) extra) as [|Hextra]; [discriminate|].
  set (pre := take extra bs). set (bs' := drop extra bs).
  set (size := int_from_bytes (byte_of_Z (Z.land (Z_of_byte b) mask) :: pre)).
  destruct (Z.ltb_spec (Z.of_nat (length bs')) size) as [|Hsize]; [discriminate|].
  destruct (Z.ltb_spec size least) as [|Hleast]; [discriminate|].
  destruct (self_encoding (take (Z.to_nat size) bs')) eqn:Hself; [discriminate|].
  simpl. intros [= <- <-].
  assert (Hpre : length pre = extra).
  { subst pre. rewrite length_take. lia. }
  destruct (prefix_sound b pre extra mask least) as [Hprefix Hrange];
    [unfold MAX_SINGLE_BYTE; lia | exact Hshape | exact Hpre | exact Hleast |].
  fold size in Hprefix, Hrange.
  assert (Hblob : Z.of_nat (length (take (Z.to_nat size) bs')) = size).
  { rewrite length_take. lia. }
  split; [|lia].
  unfold encode_atom. rewrite Hself, Hblob, Hprefix.
  simpl. f_equal. rewrite <- app_assoc, take_drop.
  subst pre bs'. rewrite take_drop. reflexivity.
Qed.

(** ** The decoder loop *)

(** Enough fuel decodes the encoding of a program and hands the program to
    the waiting stack. *)
Lemma decode_loop_encode (strict : bool) (p : Program) :
  valid p ->
  forall (fuel : nat) (rest : bytes) (stack : list frame),
    (length (encode p ++ rest) <= fuel)%nat ->
    exists fuel',
      (length rest <= fuel')%nat /\
      decode_loop strict fuel (encode p ++ rest) stack
      = resume (decode_loop strict fuel') p rest stack.
Proof.
  induction p as [a|first IHfirst rest' IHrest]; intros Hvalid fuel rest stack Hfuel.
  - simpl in Hvalid.
    destruct (read_atom_encode strict a rest Hvalid) as (b & tl & Henc & Hmark & Hread).
    simpl encode in *. rewrite Henc in *. simpl in Hfuel.
    destruct fuel as [|fuel]; [lia|].
    exists fuel. split; [rewrite length_app in Hfuel; lia|].
    simpl. destruct (Z.eqb_spec (Z_of_byte b) CONS_BOX_MARKER); [contradiction|].
    rewrite Hread. reflexivity.
  - destruct Hvalid as [Hfirst Hrest].
    simpl encode in *. simpl in Hfuel.
    destruct fuel as [|fuel]; [lia|].
    cbn [decode_loop app].
    rewrite Z_of_byte_small by (unfold CONS_BOX_MARKER; lia).
    rewrite Z.eqb_refl. rewrite <- app_assoc.
    destruct (IHfirst Hfirst fuel (encode rest' ++ rest) (PendingFirst :: stack))
      as (fuel1 & Hfuel1 & ->).
    { rewrite <- app_assoc in Hfuel. lia. }
    cbn [resume].
    destruct (IHrest Hrest fuel1 rest (PendingRest first :: stack) Hfuel1)
      as (fuel2 & Hfuel2 & ->).
    exists fuel2. split; [exact Hfuel2 | reflexivity].
Qed.

Lemma decode_with_encode (strict : bool) (p : Program) :
  valid p ->
  decode_with strict (encode p) = Some (p, Z.of_nat (length (encode p))).
Proof.
  intros Hvalid. unfold decode_with.
  destruct (decode_loop_encode strict p Hvalid (length (encode p)) [] [])
    as (fuel' & _ & Hrun).
  { rewrite app_nil_r. lia. }
  rewrite app_nil_r in Hrun. rewrite Hrun. simpl. f_equal. f_equal. lia.
Qed.

(** What the strict decoder accepts, together with what it had read for the
    pairs on its stack, is the encoding of the program it returns. *)
Lemma resume_sound (k : bytes -> list frame -> option (Program * bytes)) :
  (forall bs stack p rest,
     stack_valid stack ->
     k bs stack = Some (p, rest) ->
     stack_bytes stack ++ bs = encode p ++ rest /\ valid p) ->
  forall stack v bs p rest,
    stack_valid stack -> valid v ->
    resume k v bs stack = Some (p, rest) ->
    stack_bytes stack ++ encode v ++ bs = encode p ++ rest /\ valid p.
Proof.
  intros Hk. induction stack as [|[|first] stack IH]; intros v bs p rest Hstack Hv Hrun.
  - simpl in Hrun. injection Hrun as <- <-. split; [reflexivity | exact Hv].
  - simpl in Hrun. apply Hk in Hrun; [|split; assumption].
    simpl in *. rewrite <- app_assoc in Hrun |- *. exact Hrun.
  - simpl in Hrun, Hstack. destruct Hstack as [Hfirst Hstack].
    apply IH in Hrun; [|exact Hstack | split; assumption].
    destruct Hrun as [Hbytes Hp]. split; [|exact Hp].
    rewrite <- Hbytes. cbn [stack_bytes encode].
    rewrite <- !app_assoc. cbn [app]. rewrite <- !app_assoc. reflexivity.
Qed.

Lemma decode_loop_sound (fuel : nat) :
  forall bs stack p rest,
    stack_valid stack ->
    decode_loop true fuel bs stack = Some (p, rest) ->
    stack_bytes stack ++ bs = encode p ++ rest /\ valid p.
Proof.
  induction fuel as [|fuel IH]; intros bs stack p rest Hstack Hrun; [discriminate|].
  destruct bs as [|b bs]; [discriminate|].
  simpl in Hrun.
  destruct (Z.eqb_spec (Z_of_byte b) CONS_BOX_MARKER) as [Hmark|Hmark].
  - apply IH in Hrun; [|exact Hstack].
    simpl in Hrun. rewrite <- app_assoc in Hrun. simpl in Hrun.
    rewrite <- Hmark, byte_of_Z_of_byte in Hrun. exact Hrun.
  - destruct (read_atom true b bs) as [[a bs']|] eqn:Hread; [|discriminate].
    apply (read_atom_strict_sound _ _ _ _ Hmark) in Hread as [-> Ha].
    apply (resume_sound _ IH) in Hrun; [|exact Hstack | exact Ha].
    exact Hrun.
Qed.

(** C8: a program whose atoms the five-byte prefix can hold decodes, from its
    encoding, to itself, all bytes consumed; and a canonical byte string
    decodes to a program whose encoding is that byte string. *)
Theorem codec_round_trip (p : Program) (bs : bytes) :
  (valid p -> decode (encode p) = Some (p, Z.of_nat (length (encode p))))
  /\ (canonical bs ->
      exists q, decode bs = Some (q, Z.of_nat (length bs)) /\ encode q = bs).
Proof.
  split.
  - apply decode_with_encode.
  - intros [q Hq]. unfold decode_with in Hq.
    destruct (decode_loop true (length bs) bs []) as [[q' rest]|] eqn:Hrun;
      [|discriminate].
    injection Hq as -> Hlen.
    apply decode_loop_sound in Hrun as [Hbytes Hvalid]; [|exact I].
    simpl in Hbytes.
    assert (rest = []) by (apply nil_length_inv; lia). subst rest.
    rewrite app_nil_r in Hbytes. subst bs.
    exists q. split; [|reflexivity].
    apply decode_with_encode. exact Hvalid.
Qed.

Lemma codec_round_trip_witness :
  decode (encode (Pair (Atom [Byte.x01]) (Atom [Byte.xc8])))
  = Some (Pair (Atom [Byte.x01]) (Atom [Byte.xc8]), 4)
  /\ exists q,
       decode [Byte.xff; Byte.x82; Byte.xaa; Byte.xbb; Byte.x80]
       = Some (q, 5)
       /\ encode q = [Byte.xff; Byte.x82; Byte.xaa; Byte.xbb; Byte.x80].
Proof.
  destruct (codec_round_trip (Pair (Atom [Byte.x01]) (Atom [Byte.xc8]))
              [Byte.xff; Byte.x82; Byte.xaa; Byte.xbb; Byte.x80]) as [H1 H2].
  split.
  - apply H1. simpl. lia.
  - apply H2. eexists. vm_compute. reflexivity.
Defined.

End CodecProperties.

(** * Further properties of the routes *)

Section MoreApiProperties.

Local Open Scope list_scope.

Context {package : Package}.
Variable chains : gmap string Chain.

(** ** Addresses and chains *)

(** X1: [decode_address] gives the puzzle hash exactly when the address
    decodes with the prefix of the chain; a [ValueError] of the decoder and a
    foreign prefix both become the HTTP 400 error ["Invalid Address"], and no
    [ValueError] ever leaves it. *)
Theorem decode_address_cases (address prefix : string) :
  (forall ph, decode_address address prefix = inr ph <->
              decode_puzzle_hash address = inr (prefix, ph))
  /\ (forall p ph, decode_puzzle_hash address = inr (p, ph) -> p <> prefix ->
        decode_address address prefix = inl (HTTPException 400 "Invalid Address"))
  /\ (forall msg, decode_puzzle_hash address = inl (ValueError msg) ->
        decode_address address prefix = inl (HTTPException 400 "Invalid Address"))
  /\ (forall msg, decode_address address prefix <> inl (ValueError msg)).
Proof.
  unfold decode_address.
  destruct (decode_puzzle_hash address) as [e|[p ph0]] eqn:Hd; simpl.
  - split; [|split; [|split]].
    + intros ph. split; intros H; destruct e; discriminate.
    + intros p ph H. discriminate.
    + intros msg [= ->]. reflexivity.
    + intros msg. destruct e; discriminate.
  - destruct (decide (p <> prefix)) as [Hne|Heq]; (split; [|split; [|split]]).
    + intros ph. split; [discriminate|]. intros [= -> ->]. contradiction.
    + intros p' ph' _ _. reflexivity.
    + intros msg H. discriminate.
    + intros msg. discriminate.
    + assert (Hp : p = prefix) by (destruct (decide (p = prefix)); [assumption | contradiction]).
      intros ph. split; [intros [= ->]; rewrite Hp; reflexivity | intros [= _ ->]; reflexivity].
    + intros p' ph' [= <- <-] Hne. contradiction.
    + intros msg H. discriminate.
    + intros msg. discriminate.
Qed.

Lemma get_chain_missing (chain_id : string) (w : World) :
  chains !! chain_id = None ->
  get_chain chains chain_id w = (inl (HTTPException 400 "Ivalid Chain"), w).
Proof. intros H. unfold get_chain. rewrite H. reflexivity. Qed.

Lemma route_without_chain {A} (chain_id : string) (k : Chain -> M A) (w : World) :
  chains !! chain_id = None ->
  (c <- get_chain chains chain_id ;; k c) w
  = (inl (HTTPException 400 "Ivalid Chain"), w).
Proof. intros H. unfold bind. rewrite (get_chain_missing _ _ H). reflexivity. Qed.

(** X2: a request for a chain that is not in the registry is answered by the
    HTTP 400 error ["Ivalid Chain"] on every route, the cached ones even when
    the cache holds a live entry for the address; the backend is not called,
    nothing is logged and the cache stays as it was. *)
Theorem unknown_chain_rejected (chain_id : string) (w : World) :
  chains !! chain_id = None ->
  (forall now address,
     route_utxos chains now address chain_id w
     = (inl (HTTPException 400 "Ivalid Chain"), w))
  /\ (forall now address,
        route_balance chains now address chain_id w
        = (inl (HTTPException 400 "Ivalid Chain"), w))
  /\ (forall now address,
        route_nfts chains now address chain_id w
        = (inl (HTTPException 400 "Ivalid Chain"), w))
  /\ (forall method params,
        route_chia_rpc chains method params chain_id w
        = (inl (HTTPException 400 "Ivalid Chain"), w))
  /\ (forall spend_bundle,
        route_sendtx chains spend_bundle chain_id w
        = (inl (HTTPException 400 "Ivalid Chain"), w)).
Proof.
  intros H. repeat split; intros;
    unfold route_utxos, route_balance, route_nfts, route_chia_rpc, route_sendtx;
    apply route_without_chain; exact H.
Qed.

(** ** The cache around the routes *)

Lemma get_utxos_quiet (address : string) (chain : Chain) :
  quiet (get_utxos address chain).
Proof.
  intros w. unfold get_utxos, bind, lift, await_rpc, ret.
  destruct (decode_address address (network_prefix chain)); [split; reflexivity|].
  destruct (get_coin_records_by_puzzle_hash (client chain) _ false);
    split; reflexivity.
Qed.

Lemma query_balance_quiet (address : string) (chain : Chain) :
  quiet (query_balance address chain).
Proof.
  intros w. unfold query_balance, bind, lift, await_rpc, ret.
  destruct (decode_address address (network_prefix chain)); [split; reflexivity|].
  destruct (get_coin_records_by_puzzle_hash (client chain) _ false);
    split; reflexivity.
Qed.

(** The cache after a decorated call of a route that leaves the cache
    alone: at most the entry under the key of the call has changed, and
    nothing has when the call raised. *)
Lemma cached_touches_own_key (ttl : Z) (kb : Kwargs -> string)
    (f : string -> Chain -> M pyval) (now : Z) (kwargs : Kwargs) (w : World) :
  quiet (f (kw_address kwargs) (kw_chain kwargs)) ->
  (forall key, key <> kb kwargs ->
     cache (snd (cached ttl kb f now kwargs w)) !! key = cache w !! key)
  /\ (forall e, fst (cached ttl kb f now kwargs w) = inl e ->
        cache (snd (cached ttl kb f now kwargs w)) = cache w)
  /\ log (snd (cached ttl kb f now kwargs w)) = log w.
Proof.
  intros Hq. destruct (Hq w) as [Hl Hc]. unfold cached.
  destruct (cache w !! kb kwargs) as [[v0 expires]|];
    [destruct (decide (now < expires));
       [simpl; split; [|split]; intros; reflexivity|]|];
    (destruct (f (kw_address kwargs) (kw_chain kwargs) w) as [[e|v] w'] eqn:Hf;
     simpl in Hl, Hc |- *; (split; [|split]);
     [ intros key Hkey; rewrite Hc; reflexivity
     | intros e' _; exact Hc
     | exact Hl
     | intros key Hkey; rewrite lookup_insert_ne by congruence;
       rewrite Hc; reflexivity
     | intros e' He'; discriminate He'
     | exact Hl ]).
Qed.

Lemma key_prefix_inj (prefix s1 s2 : string) :
  (prefix ++ s1 = prefix ++ s2)%string -> s1 = s2.
Proof.
  induction prefix as [|c prefix IH]; simpl; intros H; [exact H|].
  injection H as H. apply IH. exact H.
Qed.

(** X3: a request to a cached route changes at most the cache entry under
    its own key, the name of the route, a colon and its address: entries of
    the other routes and of other addresses stay as they were, and the keys
    of two routes never coincide.  No cached route writes a log line. *)
Theorem cache_entries_kept_apart (now : Z) (address chain_id : string) (w : World) :
  (forall key, key <> ("utxos:" ++ address)%string ->
     cache (snd (route_utxos chains now address chain_id w)) !! key = cache w !! key)
  /\ (forall key, key <> ("balance:" ++ address)%string ->
        cache (snd (route_balance chains now address chain_id w)) !! key = cache w !! key)
  /\ (forall key, key <> ("nfts:" ++ address)%string ->
        cache (snd (route_nfts chains now address chain_id w)) !! key = cache w !! key)
  /\ (forall a1 a2 : string,
        ("utxos:" ++ a1 <> "balance:" ++ a2 /\ "utxos:" ++ a1 <> "nfts:" ++ a2 /\
         "balance:" ++ a1 <> "nfts:" ++ a2 /\
         ("utxos:" ++ a1 = "utxos:" ++ a2 -> a1 = a2) /\
         ("balance:" ++ a1 = "balance:" ++ a2 -> a1 = a2) /\
         ("nfts:" ++ a1 = "nfts:" ++ a2 -> a1 = a2))%string)
  /\ log (snd (route_utxos chains now address chain_id w)) = log w
  /\ log (snd (route_balance chains now address chain_id w)) = log w
  /\ log (snd (route_nfts chains now address chain_id w)) = log w.
Proof.
  unfold route_utxos, route_balance, route_nfts.
  destruct (chains !! chain_id) as [chain|] eqn:Hchain.
  - rewrite !(route_via_chain _ _ _ _ _ Hchain).
    pose proof (cached_touches_own_key utxos_ttl utxos_key_builder get_utxos now
                  {| kw_address := address; kw_chain := chain |} w
                  (get_utxos_quiet address chain)) as (Hu & _ & Hul).
    pose proof (cached_touches_own_key balance_ttl balance_key_builder query_balance now
                  {| kw_address := address; kw_chain := chain |} w
                  (query_balance_quiet address chain)) as (Hb & _ & Hbl).
    pose proof (cached_touches_own_key nfts_ttl nfts_key_builder list_nfts now
                  {| kw_address := address; kw_chain := chain |} w
                  (list_nfts_quiet address chain)) as (Hn & _ & Hnl).
    repeat split; try assumption; try discriminate;
      try (intros key Hkey; first [apply Hu | apply Hb | apply Hn]; exact Hkey);
      apply key_prefix_inj.
  - rewrite !(route_without_chain _ _ _ Hchain). simpl.
    repeat split; try reflexivity; try discriminate; apply key_prefix_inj.
Qed.

(** X4: a failed request to a cached route stores nothing: the cache is as
    it was before the request, whatever the failure (an invalid address, an
    unknown chain, an error of the backend or of the extraction). *)
Theorem failures_are_not_cached (now : Z) (address chain_id : string) (w : World) (e : exn) :
  (fst (route_utxos chains now address chain_id w) = inl e ->
   cache (snd (route_utxos chains now address chain_id w)) = cache w)
  /\ (fst (route_balance chains now address chain_id w) = inl e ->
      cache (snd (route_balance chains now address chain_id w)) = cache w)
  /\ (fst (route_nfts chains now address chain_id w) = inl e ->
      cache (snd (route_nfts chains now address chain_id w)) = cache w).
Proof.
  unfold route_utxos, route_balance, route_nfts.
  destruct (chains !! chain_id) as [chain|] eqn:Hchain.
  - rewrite !(route_via_chain _ _ _ _ _ Hchain).
    pose proof (cached_touches_own_key utxos_ttl utxos_key_builder get_utxos now
                  {| kw_address := address; kw_chain := chain |} w
                  (get_utxos_quiet address chain)) as (_ & Hu & _).
    pose proof (cached_touches_own_key balance_ttl balance_key_builder query_balance now
                  {| kw_address := address; kw_chain := chain |} w
                  (query_balance_quiet address chain)) as (_ & Hb & _).
    pose proof (cached_touches_own_key nfts_ttl nfts_key_builder list_nfts now
                  {| kw_address := address; kw_chain := chain |} w
                  (list_nfts_quiet address chain)) as (_ & Hn & _).
    repeat split; intros H; [apply (Hu e) | apply (Hb e) | apply (Hn e)]; exact H.
  - rewrite !(route_without_chain _ _ _ Hchain). simpl.
    repeat split; reflexivity.
Qed.

(** ** /sendtx *)

(** X5: [create_transaction] hands the spend bundle to [push_tx] once.  The
    status of the answer is returned; a [ValueError] of the backend is logged
    as one warning and becomes an HTTP 400 error with its message; any other
    exception leaves the route as it is, and nothing is logged. *)
Theorem create_transaction_cases (spend_bundle : json) (chain : Chain) (w : World) :
  (forall resp,
     push_tx (client chain) spend_bundle = inr resp ->
     create_transaction spend_bundle chain w
     = (inr (VJson (JDict [("status", status resp)])),
        {| rpc_trace := rpc_trace w ++ [(id chain, Call_push_tx spend_bundle)];
           log := log w; cache := cache w |}))
  /\ (forall msg,
        push_tx (client chain) spend_bundle = inl (ValueError msg) ->
        create_transaction spend_bundle chain w
        = (inl (HTTPException 400 msg),
           {| rpc_trace := rpc_trace w ++ [(id chain, Call_push_tx spend_bundle)];
              log := log w ++
                [{| level := "warning"; fmt := "sendtx: %s, error: %r";
                    args := [LJson spend_bundle; LExn (ValueError msg)] |}];
              cache := cache w |}))
  /\ (forall e,
        push_tx (client chain) spend_bundle = inl e ->
        (forall msg, e <> ValueError msg) ->
        create_transaction spend_bundle chain w
        = (inl e,
           {| rpc_trace := rpc_trace w ++ [(id chain, Call_push_tx spend_bundle)];
              log := log w; cache := cache w |})).
Proof.
  unfold create_transaction, await_rpc.
  split; [|split].
  - intros resp ->. reflexivity.
  - intros msg ->. reflexivity.
  - intros e -> Hne. destruct e; try reflexivity.
    exfalso. eapply Hne. reflexivity.
Qed.

(** ** /utxos and /balance *)

(** X6: when the address decodes, [get_utxos] and [query_balance] each ask
    the backend once, for the coin records of the puzzle hash without the
    spent ones, and do nothing else to the world; an error of the backend is
    the error of the route.  When the address does not decode, the backend is
    not asked at all. *)
Theorem coin_record_routes_one_call (address : string) (chain : Chain) (w : World) :
  (forall ph,
     decode_address address (network_prefix chain) = inr ph ->
     snd (get_utxos address chain w)
     = {| rpc_trace := rpc_trace w ++
            [(id chain, Call_get_coin_records_by_puzzle_hash ph false)];
          log := log w; cache := cache w |}
     /\ snd (query_balance address chain w) = snd (get_utxos address chain w)
     /\ (forall e,
           get_coin_records_by_puzzle_hash (client chain) ph false = inl e ->
           fst (get_utxos address chain w) = inl e /\
           fst (query_balance address chain w) = inl e))
  /\ (forall e,
        decode_address address (network_prefix chain) = inl e ->
        get_utxos address chain w = (inl e, w) /\
        query_balance address chain w = (inl e, w)).
Proof.
  unfold get_utxos, query_balance, bind, lift, await_rpc, ret.
  split.
  - intros ph ->.
    destruct (get_coin_records_by_puzzle_hash (client chain) ph false) as [e0|rs];
      simpl; (split; [reflexivity | split; [reflexivity|]]).
    + intros e [= ->]. split; reflexivity.
    + intros e He. discriminate He.
  - intros e ->. split; reflexivity.
Qed.

(** X7: the two routes agree: the balance of an address is the sum of the
    integer amounts whose decimal strings /utxos lists for it. *)
Theorem balance_is_sum_of_utxos (address : string) (chain : Chain) (w : World)
    (data : list UTXO) (total : Z) :
  fst (get_utxos address chain w) = inr (VUtxos data) ->
  fst (query_balance address chain w) = inr (VBalance total) ->
  exists amounts, map amount data = map str amounts /\ total = sum amounts.
Proof.
  unfold get_utxos, query_balance, bind, lift, await_rpc, ret.
  destruct (decode_address address (network_prefix chain)) as [e|ph]; [discriminate|].
  destruct (get_coin_records_by_puzzle_hash (client chain) ph false) as [e|rs];
    [discriminate|].
  simpl. intros [= <-] [= <-].
  exists (map (fun c => cj_amount (coin c)) (filter (fun c => spent c = false) rs)).
  split; [|reflexivity].
  rewrite get_utxos_loop_spec. simpl. rewrite !map_map. reflexivity.
Qed.

Lemma unspent_total_perm (l1 l2 : list CoinRecord) :
  l1 ≡ₚ l2 -> unspent_total l1 = unspent_total l2.
Proof.
  induction 1 as [|c l1 l2 _ IH|c1 c2 l|l1 l2 l3 _ IH1 _ IH2]; simpl.
  - reflexivity.
  - rewrite IH. reflexivity.
  - lia.
  - congruence.
Qed.

(** X8: the balance does not depend on the order in which the backend lists
    the coin records. *)
Theorem balance_order_independent (address : string) (c1 c2 : Chain) (w1 w2 : World)
    (ph : bytes) (l1 l2 : list CoinRecord) :
  decode_address address (network_prefix c1) = inr ph ->
  network_prefix c2 = network_prefix c1 ->
  get_coin_records_by_puzzle_hash (client c1) ph false = inr l1 ->
  get_coin_records_by_puzzle_hash (client c2) ph false = inr l2 ->
  l1 ≡ₚ l2 ->
  fst (query_balance address c1 w1) = fst (query_balance address c2 w2).
Proof.
  intros Ha Hp H1 H2 Hperm.
  unfold query_balance, bind, lift, await_rpc, ret.
  rewrite Hp, Ha, H1, H2. simpl.
  rewrite !sum_unspent, (unspent_total_perm _ _ Hperm). reflexivity.
Qed.

(** X9: the conversion of a coin for the JavaScript clients loses nothing:
    two coins with the same entry are the same coin, whatever the size of
    the amount. *)
Theorem coin_javascript_compat_inj (c1 c2 : CoinJson) :
  coin_javascript_compat c1 = coin_javascript_compat c2 -> c1 = c2.
Proof.
  destruct c1 as [p1 h1 a1], c2 as [p2 h2 a2]. unfold coin_javascript_compat.
  simpl. intros [= -> -> Ha]. f_equal.
  unfold str in Ha. apply (inj pretty) in Ha. exact Ha.
Qed.


(** ** /nfts: the requests *)

Lemma call_inr_request (chain : Chain) (cr : CoinRecord) (aw : M CoinSpend) :
  puzzle_and_solution_call chain cr = inr aw ->
  exists rq answer,
    request_of chain cr = Some rq /\
    aw = (fun w => (answer,
                    {| rpc_trace := rpc_trace w ++ [rq]; log := log w;
                       cache := cache w |})).
Proof.
  intros H. apply call_shape in H as (coin_id & Hid & ->).
  unfold request_of. rewrite Hid. eexists _, _. split; reflexivity.
Qed.

(** [gather] starts every call of the batch, whether calls fail or not. *)
Lemma gather_calls_trace (chain : Chain) (coin_records : list CoinRecord)
    (calls : list (M CoinSpend)) (w : World) :
  Forall2 (fun cr aw => puzzle_and_solution_call chain cr = inr aw) coin_records calls ->
  rpc_trace (snd (gather calls w))
  = rpc_trace w ++ omap (request_of chain) coin_records
  /\ length (omap (request_of chain) coin_records) = length coin_records.
Proof.
  intros H. revert w. induction H as [|cr aw crs aws Hcall _ IH]; intros w.
  - simpl. rewrite app_nil_r. split; reflexivity.
  - apply call_inr_request in Hcall as (rq & answer & Hrq & ->).
    cbn [gather omap list_omap]. rewrite Hrq.
    match goal with
    | |- context [gather aws ?w1] => destruct (IH w1) as [Htr Hlen]
    end.
    split; [|simpl; rewrite Hlen; reflexivity].
    destruct answer as [e|a].
    + simpl in *. rewrite Htr. simpl. rewrite <- app_assoc. reflexivity.
    + match goal with
      | |- context [gather aws ?w1] => destruct (gather aws w1) as [[e|l] w2]
      end; simpl in *; rewrite Htr; simpl; rewrite <- app_assoc; reflexivity.
Qed.

(** X10: once the address, the start height, the hint query and the parent
    ids are fine, [list_nfts] issues the hint query and then one
    [get_puzzle_and_solution] request a coin record, in the order of the
    records, and nothing else, whether requests or later steps fail or
    not. *)
Theorem list_nfts_requests (address : string) (chain : Chain) (w : World)
    (ph : bytes) (h : Z) (coin_records : list CoinRecord) :
  decode_address address (network_prefix chain) = inr ph ->
  settings_NFT_CHAIN_START_HEIGHT !! network_name chain = Some h ->
  get_coin_records_by_hint (client chain) ph false h = inr coin_records ->
  Forall (fun cr => exists coin_id,
            hexstr_to_bytes (cj_parent_coin_info (coin cr)) = inr coin_id)
         coin_records ->
  rpc_trace (snd (list_nfts address chain w))
  = rpc_trace w ++ (id chain, Call_get_coin_records_by_hint ph false h)
                   :: omap (request_of chain) coin_records
  /\ length (omap (request_of chain) coin_records) = length coin_records.
Proof.
  intros Ha Hh Hr Hids.
  destruct (comprehension_total (puzzle_and_solution_call chain) coin_records)
    as [calls Hcalls].
  { eapply Forall_impl; [exact Hids|]. intros cr [coin_id Hid].
    unfold puzzle_and_solution_call. rewrite Hid. simpl. eexists. reflexivity. }
  rewrite (list_nfts_steps _ _ w _ _ _ _ Ha Hh Hr Hcalls).
  match goal with
  | |- context [gather calls ?w1] =>
      destruct (gather_calls_trace chain coin_records calls w1
                  (comprehension_inr _ _ _ Hcalls)) as [Htr Hlen];
      destruct (gather calls w1) as [[e|pzs] w2]
  end; simpl in Htr |- *; (split; [|exact Hlen]);
    rewrite Htr, <- app_assoc; reflexivity.
Qed.

Lemma comprehension_first_failure {A B} (f : A -> exn + B) (l : list A) :
  Exists (fun a => exists e, f a = inl e) l ->
  exists e, comprehension f l = inl e /\ Exists (fun a => f a = inl e) l.
Proof.
  induction l as [|a l IH]; intros Hex; [inversion Hex|].
  simpl. destruct (f a) as [e|b] eqn:Hf.
  - exists e. split; [reflexivity | left; exact Hf].
  - assert (Hl : Exists (fun a => exists e, f a = inl e) l).
    { inversion Hex as [? ? [e He]|]; [congruence | assumption]. }
    destruct (IH Hl) as (e & Hc & Hin).
    exists e. simpl. rewrite Hc. split; [reflexivity | right; exact Hin].
Qed.

(** X11: the failures of [list_nfts] before the batch of requests.  A
    network name without a start height in the settings raises [KeyError]
    and the backend is not called.  A parent id that does not convert raises
    its error after the hint query only: no [get_puzzle_and_solution]
    request is issued, for any coin. *)
Theorem list_nfts_early_failures (address : string) (chain : Chain) (w : World)
    (ph : bytes) :
  decode_address address (network_prefix chain) = inr ph ->
  (settings_NFT_CHAIN_START_HEIGHT !! network_name chain = None ->
   list_nfts address chain w = (inl (KeyError (network_name chain)), w))
  /\ (forall h coin_records,
        settings_NFT_CHAIN_START_HEIGHT !! network_name chain = Some h ->
        get_coin_records_by_hint (client chain) ph false h = inr coin_records ->
        Exists (fun cr => exists e,
                  hexstr_to_bytes (cj_parent_coin_info (coin cr)) = inl e)
               coin_records ->
        exists e,
          Exists (fun cr => hexstr_to_bytes (cj_parent_coin_info (coin cr)) = inl e)
                 coin_records /\
          list_nfts address chain w
          = (inl e,
             {| rpc_trace := rpc_trace w ++
                  [(id chain, Call_get_coin_records_by_hint ph false h)];
                log := log w; cache := cache w |})).
Proof.
  intros Ha. unfold list_nfts, bind, lift, await_rpc, ret. rewrite Ha.
  split.
  - intros ->. reflexivity.
  - intros h coin_records -> -> Hex.
    destruct (comprehension_first_failure (puzzle_and_solution_call chain) coin_records)
      as (e & Hc & Hin).
    { eapply Exists_impl; [exact Hex|]. intros cr [e He].
      exists e. unfold puzzle_and_solution_call. rewrite He. reflexivity. }
    exists e. rewrite Hc. split; [|reflexivity].
    eapply Exists_impl; [exact Hin|]. intros cr Hcr.
    unfold puzzle_and_solution_call in Hcr.
    destruct (hexstr_to_bytes (cj_parent_coin_info (coin cr))); [|discriminate].
    simpl in Hcr. congruence.
Qed.

(** ** /nfts: the listing *)

Lemma list_nfts_loop_exact (ph : bytes) (rows : list (CoinRecord * CoinSpend))
    (data : list json) :
  Forall row_decodes rows ->
  list_nfts_loop ph rows data = inr (data ++ omap (nft_of_row ph) rows).
Proof.
  intros H. revert data.
  induction H as [|[cr cs] rows ((c & Hc) & (p & Hp) & (s & Hs)) _ IH]; intros data.
  - simpl. rewrite app_nil_r. reflexivity.
  - cbn [list_nfts_loop omap list_omap]. unfold nft_of_row. simpl in Hc, Hp, Hs |- *.
    rewrite Hc, Hp, Hs. simpl.
    destruct (get_nft_info c p s) as [e|nft_info]; [apply IH|].
    destruct (decide (owner nft_info <> bytes_hex ph)) as [Hne|Heq];
      destruct (decide (owner nft_info = bytes_hex ph)) as [Heq'|Hne'];
      try contradiction.
    + apply IH.
    + rewrite IH, <- app_assoc. reflexivity.
Qed.

Lemma gather_calls_answered (chain : Chain) (coin_records : list CoinRecord)
    (spends : list CoinSpend) (calls : list (M CoinSpend)) (w : World) :
  Forall2 (answered chain) coin_records spends ->
  Forall2 (fun cr aw => puzzle_and_solution_call chain cr = inr aw) coin_records calls ->
  fst (gather calls w) = inr spends.
Proof.
  intros Hans. revert calls w.
  induction Hans as [|cr cs crs css (coin_id & Hid & Hcs) _ IH]; intros calls w Hcalls.
  - inversion Hcalls. reflexivity.
  - inversion Hcalls as [|? aw ? aws Hcall Hrest]; subst.
    apply call_shape in Hcall as (coin_id' & Hid' & ->).
    assert (coin_id' = coin_id) by congruence. subst coin_id'.
    cbn [gather]. unfold await_rpc at 1. rewrite Hcs.
    match goal with
    | |- context [gather aws ?w1] =>
        specialize (IH aws w1 Hrest); destruct (gather aws w1) as [[e|l] w2]
    end; simpl in IH |- *; congruence.
Qed.

(** X12: when the backend answers for every coin of the batch and every
    coin, puzzle and solution decodes, the listing is, in the order of the
    coin records, the dict of every coin whose extraction succeeds with the
    queried owner, and of no other: such a coin is never left out. *)
Theorem list_nfts_exact (address : string) (chain : Chain) (w : World)
    (ph : bytes) (h : Z) (coin_records : list CoinRecord) (spends : list CoinSpend) :
  decode_address address (network_prefix chain) = inr ph ->
  settings_NFT_CHAIN_START_HEIGHT !! network_name chain = Some h ->
  get_coin_records_by_hint (client chain) ph false h = inr coin_records ->
  Forall2 (answered chain) coin_records spends ->
  Forall row_decodes (zip coin_records spends) ->
  fst (list_nfts address chain w)
  = inr (VNfts (omap (nft_of_row ph) (zip coin_records spends))).
Proof.
  intros Ha Hh Hr Hans Hdec.
  destruct (comprehension_total (puzzle_and_solution_call chain) coin_records)
    as [calls Hcalls].
  { clear Hdec Hr. induction Hans as [|cr cs crs css (coin_id & Hid & _) _ IH].
    - constructor.
    - constructor; [|exact IH].
      unfold puzzle_and_solution_call. rewrite Hid. simpl. eexists. reflexivity. }
  rewrite (list_nfts_steps _ _ w _ _ _ _ Ha Hh Hr Hcalls).
  match goal with
  | |- context [gather calls ?w1] =>
      pose proof (gather_calls_answered chain coin_records spends calls w1 Hans
                    (comprehension_inr _ _ _ Hcalls)) as Hg;
      destruct (gather calls w1) as [[e|pzs] w2]
  end; simpl in Hg; [discriminate|].
  injection Hg as ->.
  rewrite (list_nfts_loop_exact ph _ [] Hdec). reflexivity.
Qed.

(** X13: the first row whose coin, puzzle or solution does not decode ends
    the loop with the exception of that decoding, whatever the rows after
    it are and whatever was collected before it. *)
Theorem list_nfts_loop_first_failure (ph : bytes)
    (before after : list (CoinRecord * CoinSpend)) (row : CoinRecord * CoinSpend)
    (data : list json) (e : exn) :
  Forall row_decodes before ->
  row_failure row = Some e ->
  list_nfts_loop ph (before ++ row :: after) data = inl e.
Proof.
  intros Hbefore Hrow. revert data.
  induction Hbefore as [|[cr cs] rows ((c & Hc) & (p & Hp) & (s & Hs)) _ IH];
    intros data.
  - destruct row as [cr cs]. unfold row_failure in Hrow. simpl in Hrow |- *.
    destruct (Coin_from_json_dict (coin cr)) as [e1|c];
      [injection Hrow as <-; reflexivity|].
    simpl. destruct (Program_fromhex (puzzle_reveal cs)) as [e2|p];
      [injection Hrow as <-; reflexivity|].
    simpl. destruct (Program_fromhex (solution cs)) as [e3|s];
      [injection Hrow as <-; reflexivity|].
    discriminate.
  - simpl in Hc, Hp, Hs |- *. rewrite Hc, Hp, Hs. simpl.
    destruct (get_nft_info c p s) as [e'|nft_info]; [apply IH|].
    destruct (decide (owner nft_info <> bytes_hex ph)); apply IH.
Qed.


End MoreApiProperties.

(** * Properties of the startup *)

Section StartupProperties.

Local Open Scope list_scope.

Context {startup : Startup}.

Lemma init_chains_loop_app (l1 l2 : list ChainConfig) (m : gmap string Chain) :
  init_chains_loop (l1 ++ l2) m
  = match init_chains_loop l1 m with
    | inl e => inl e
    | inr m' => init_chains_loop l2 m'
    end.
Proof.
  revert m. induction l1 as [|row l1 IH]; intros m; [reflexivity|].
  cbn [app init_chains_loop].
  destruct (match truthy (row_proxy_rpc_url row), truthy (row_chia_root_path row) with
            | Some url, _ => create_by_proxy_url url
            | None, Some path => create_by_chia_root_path path
            | None, None => _
            end) as [e|c]; [reflexivity|].
  cbn [and_then]. destruct (get_network_info c) as [e|info]; [reflexivity|].
  cbn [and_then]. apply IH.
Qed.

(** One turn of the loop that succeeds: the client it made and the entry it
    wrote. *)
Lemma init_chains_loop_cons (row : ChainConfig) (rows : list ChainConfig)
    (m m' : gmap string Chain) :
  init_chains_loop (row :: rows) m = inr m' ->
  exists c,
    (match truthy (row_proxy_rpc_url row), truthy (row_chia_root_path row) with
     | Some url, _ => create_by_proxy_url url = inr c
     | None, Some path => create_by_chia_root_path path = inr c
     | None, None => False
     end) /\
    (exists info, get_network_info c = inr info) /\
    init_chains_loop rows
      (<[int_to_hex (row_id row) :=
           {| id := int_to_hex (row_id row); network_name := row_network_name row;
              network_prefix := row_network_prefix row; client := c |}]> m)
    = inr m'.
Proof.
  cbn [init_chains_loop]. intros H.
  destruct (truthy (row_proxy_rpc_url row)) as [url|];
    [|destruct (truthy (row_chia_root_path row)) as [path|]].
  - destruct (create_by_proxy_url url) as [e|c]; [discriminate|].
    cbn [and_then] in H. destruct (get_network_info c) as [e|info] eqn:Hi; [discriminate|].
    exists c. split; [reflexivity|]. split; [eexists; exact Hi | exact H].
  - destruct (create_by_chia_root_path path) as [e|c]; [discriminate|].
    cbn [and_then] in H. destruct (get_network_info c) as [e|info] eqn:Hi; [discriminate|].
    exists c. split; [reflexivity|]. split; [eexists; exact Hi | exact H].
  - discriminate.
Qed.

Lemma init_chains_loop_entries (rows : list ChainConfig) :
  forall (m m' : gmap string Chain),
    init_chains_loop rows m = inr m' ->
    forall k c,
      m' !! k = Some c ->
      m !! k = Some c \/
      (id c = k /\
       exists row, row ∈ rows /\ k = int_to_hex (row_id row) /\
                   network_name c = row_network_name row /\
                   network_prefix c = row_network_prefix row).
Proof.
  induction rows as [|row rows IH]; intros m m' Hrun k c Hk.
  - injection Hrun as <-. left. exact Hk.
  - apply init_chains_loop_cons in Hrun as (cl & _ & _ & Hrun).
    destruct (IH _ _ Hrun k c Hk) as [Hold|(Hid & r & Hin & Hr)].
    + destruct (decide (int_to_hex (row_id row) = k)) as [Heq|Hne].
      * subst k. rewrite lookup_insert_eq in Hold. injection Hold as <-.
        right. simpl. split; [reflexivity|].
        exists row. split; [left|]. split; [reflexivity|]. split; reflexivity.
      * rewrite lookup_insert_ne in Hold by exact Hne. left. exact Hold.
    + right. split; [exact Hid|]. exists r. split; [right; exact Hin | exact Hr].
Qed.

Lemma init_chains_loop_keys (rows : list ChainConfig) :
  forall (m m' : gmap string Chain),
    init_chains_loop rows m = inr m' ->
    forall k,
      is_Some (m' !! k) <->
      is_Some (m !! k) \/ exists row, row ∈ rows /\ k = int_to_hex (row_id row).
Proof.
  induction rows as [|row rows IH]; intros m m' Hrun k.
  - injection Hrun as <-. split; [intros H; left; exact H|].
    intros [H|(r & Hin & _)]; [exact H | inversion Hin].
  - apply init_chains_loop_cons in Hrun as (cl & _ & _ & Hrun).
    rewrite (IH _ _ Hrun k). split.
    + intros [Hm|(r & Hin & Hr)].
      * destruct (decide (int_to_hex (row_id row) = k)) as [Heq|Hne].
        -- right. exists row. split; [left | symmetry; exact Heq].
        -- rewrite lookup_insert_ne in Hm by exact Hne. left. exact Hm.
      * right. exists r. split; [right; exact Hin | exact Hr].
    + intros [Hm|(r & Hin & Hr)].
      * left. destruct (decide (int_to_hex (row_id row) = k)) as [Heq|Hne].
        -- rewrite Heq, lookup_insert_eq. eexists. reflexivity.
        -- rewrite lookup_insert_ne by exact Hne. exact Hm.
      * apply elem_of_cons in Hin as [->|Hin].
        -- left. rewrite Hr, lookup_insert_eq. eexists. reflexivity.
        -- right. exists r. split; assumption.
Qed.

Lemma init_chains_loop_untouched (rows : list ChainConfig) :
  forall (m m' : gmap string Chain) (k : string),
    init_chains_loop rows m = inr m' ->
    Forall (fun r => int_to_hex (row_id r) <> k) rows ->
    m' !! k = m !! k.
Proof.
  induction rows as [|row rows IH]; intros m m' k Hrun Hall.
  - injection Hrun as <-. reflexivity.
  - apply init_chains_loop_cons in Hrun as (cl & _ & _ & Hrun).
    inversion Hall as [|? ? Hne Hrest]; subst.
    rewrite (IH _ _ k Hrun Hrest). apply lookup_insert_ne. exact Hne.
Qed.

(** X14: the registry a successful startup leaves in [app.state.chains]: an
    entry is filed under its own [id], which is [int_to_hex] of the id of
    a configured row whose names it carries; and [get_chain] resolves a chain
    id exactly when it is [int_to_hex] of the id of a configured row. *)
Theorem init_chains_registry (chains_config : list ChainConfig)
    (chains : gmap string Chain) :
  init_chains chains_config = inr chains ->
  (forall k c,
     chains !! k = Some c ->
     id c = k /\
     exists row, row ∈ chains_config /\ k = int_to_hex (row_id row) /\
                 network_name c = row_network_name row /\
                 network_prefix c = row_network_prefix row)
  /\ (forall k w,
        (exists c, get_chain chains k w = (inr c, w)) <->
        (exists row, row ∈ chains_config /\ k = int_to_hex (row_id row))).
Proof.
  unfold init_chains. intros Hrun. split.
  - intros k c Hk.
    destruct (init_chains_loop_entries _ _ _ Hrun k c Hk) as [Hempty|H];
      [rewrite lookup_empty in Hempty; discriminate | exact H].
  - intros k w. pose proof (init_chains_loop_keys _ _ _ Hrun k) as Hkeys.
    unfold get_chain. split.
    + intros [c Hc]. destruct (chains !! k) as [c'|] eqn:Hk; [|discriminate].
      destruct Hkeys as [Hkeys _].
      destruct Hkeys as [Hempty|H]; [eexists; reflexivity | | exact H].
      rewrite lookup_empty in Hempty. destruct Hempty as [? ?]. discriminate.
    + intros H. destruct Hkeys as [_ Hkeys].
      destruct (Hkeys (or_intror H)) as [c Hc]. rewrite Hc.
      exists c. reflexivity.
Qed.

(** X15: what ends the startup.  After rows that went through, a row with
    neither a proxy URL nor a root path (missing, [None] or empty) raises
    the [ValueError] that names its id; a constructor of the client or the
    [get_network_info] check that raises ends it with that exception; in all
    these cases no registry is left, whatever rows follow. *)
Theorem init_chains_failures (before after : list ChainConfig) (row : ChainConfig)
    (m : gmap string Chain) :
  init_chains before = inr m ->
  (truthy (row_proxy_rpc_url row) = None ->
   truthy (row_chia_root_path row) = None ->
   init_chains (before ++ row :: after)
   = inl (ValueError ("chian " ++ str (row_id row) ++ " has no full node rpc config")%string))
  /\ (forall url e,
        truthy (row_proxy_rpc_url row) = Some url ->
        create_by_proxy_url url = inl e ->
        init_chains (before ++ row :: after) = inl e)
  /\ (forall path e,
        truthy (row_proxy_rpc_url row) = None ->
        truthy (row_chia_root_path row) = Some path ->
        create_by_chia_root_path path = inl e ->
        init_chains (before ++ row :: after) = inl e)
  /\ (forall url c e,
        truthy (row_proxy_rpc_url row) = Some url ->
        create_by_proxy_url url = inr c ->
        get_network_info c = inl e ->
        init_chains (before ++ row :: after) = inl e)
  /\ (forall path c e,
        truthy (row_proxy_rpc_url row) = None ->
        truthy (row_chia_root_path row) = Some path ->
        create_by_chia_root_path path = inr c ->
        get_network_info c = inl e ->
        init_chains (before ++ row :: after) = inl e).
Proof.
  unfold init_chains. intros Hbefore.
  rewrite init_chains_loop_app, Hbefore. cbn [init_chains_loop].
  split; [|split; [|split; [|split]]].
  - intros -> ->. reflexivity.
  - intros url e -> ->. reflexivity.
  - intros path e -> -> ->. reflexivity.
  - intros url c e -> -> . cbn [and_then]. intros ->. reflexivity.
  - intros path c e -> -> ->. cbn [and_then]. intros ->. reflexivity.
Qed.

(** X16: the entry of a chain id is that of the last configured row with
    this id, and its client is the one made from the proxy URL of the row
    when the row has one, from the root path only otherwise. *)
Theorem init_chains_last_row_wins (before after : list ChainConfig) (row : ChainConfig)
    (chains : gmap string Chain) :
  init_chains (before ++ row :: after) = inr chains ->
  Forall (fun r => int_to_hex (row_id r) <> int_to_hex (row_id row)) after ->
  exists c,
    chains !! int_to_hex (row_id row) = Some c /\
    network_name c = row_network_name row /\
    network_prefix c = row_network_prefix row /\
    (forall url, truthy (row_proxy_rpc_url row) = Some url ->
                 create_by_proxy_url url = inr (client c)) /\
    (forall path, truthy (row_proxy_rpc_url row) = None ->
                  truthy (row_chia_root_path row) = Some path ->
                  create_by_chia_root_path path = inr (client c)).
Proof.
  unfold init_chains. rewrite init_chains_loop_app.
  destruct (init_chains_loop before ∅) as [e|m]; [discriminate|].
  intros Hrun Hafter.
  apply init_chains_loop_cons in Hrun as (cl & Hcl & _ & Hrun).
  eexists. split.
  { rewrite (init_chains_loop_untouched _ _ _ _ Hrun Hafter).
    apply lookup_insert_eq. }
  simpl. split; [reflexivity|]. split; [reflexivity|].
  split.
  - intros url Hurl. rewrite Hurl in Hcl. exact Hcl.
  - intros path Hnone Hpath. rewrite Hnone, Hpath in Hcl. exact Hcl.
Qed.

End StartupProperties.

(** ** The further properties on the test bench *)

Section MoreBenchRuns.

Local Open Scope list_scope.

Local Abbreviation pkg := Bench.package.
Local Abbreviation aabb := [Byte.xaa; Byte.xbb].
Local Abbreviation chains := (Bench.chains (inr Bench.nft_spend)).

Lemma decode_address_cases_witness :
  @decode_address pkg "xch1aabb" "xch" = inr aabb
  /\ @decode_address pkg "xch1aabb" "txch" = inl (HTTPException 400 "Invalid Address")
  /\ @decode_address pkg "no separator" "xch" = inl (HTTPException 400 "Invalid Address").
Proof.
  split; [|split].
  - destruct (@decode_address_cases pkg "xch1aabb" "xch") as (H & _).
    apply H. vm_compute. reflexivity.
  - destruct (@decode_address_cases pkg "xch1aabb" "txch") as (_ & H & _).
    apply (H "xch" aabb); [vm_compute; reflexivity | discriminate].
  - destruct (@decode_address_cases pkg "no separator" "xch") as (_ & _ & H & _).
    apply (H "Invalid Address"). vm_compute. reflexivity.
Defined.

Lemma unknown_chain_rejected_witness :
  @route_utxos pkg chains 105 Bench.address "0x09"
    (Bench.world_cached "utxos:xch1aabb" Bench.utxos_answer 110)
  = (inl (HTTPException 400 "Ivalid Chain"),
     Bench.world_cached "utxos:xch1aabb" Bench.utxos_answer 110).
Proof.
  destruct (@unknown_chain_rejected pkg chains "0x09"
              (Bench.world_cached "utxos:xch1aabb" Bench.utxos_answer 110))
    as (H & _).
  - vm_compute. reflexivity.
  - apply H.
Defined.

Lemma cache_entries_kept_apart_witness :
  cache (snd (@route_balance pkg chains 105 Bench.address "0x01"
                (Bench.world_cached "utxos:xch1aabb" Bench.utxos_answer 110)))
    !! "utxos:xch1aabb"
  = Some (Bench.utxos_answer, 110).
Proof.
  destruct (@cache_entries_kept_apart pkg chains 105 Bench.address "0x01"
              (Bench.world_cached "utxos:xch1aabb" Bench.utxos_answer 110))
    as (_ & H & _).
  rewrite H; [vm_compute; reflexivity | discriminate].
Defined.

Lemma failures_are_not_cached_witness :
  cache (snd (@route_utxos pkg chains 100 "no separator" "0x01" Bench.world0)) = ∅.
Proof.
  destruct (@failures_are_not_cached pkg chains 100 "no separator" "0x01" Bench.world0
              (HTTPException 400 "Invalid Address")) as (H & _).
  rewrite H; [reflexivity | vm_compute; reflexivity].
Defined.

Lemma create_transaction_cases_witness :
  create_transaction (JDict []) Bench.good Bench.world0
  = (inl (HTTPException 400 "bundle rejected"),
     {| rpc_trace := [("0x01", Call_push_tx (JDict []))];
        log := [{| level := "warning"; fmt := "sendtx: %s, error: %r";
                   args := [LJson (JDict []); LExn (ValueError "bundle rejected")] |}];
        cache := ∅ |})
  /\ create_transaction (JDict []) MoreBench.mirror Bench.world0
     = (inr (VJson (JDict [("status", JStr "SUCCESS")])),
        {| rpc_trace := [("0x03", Call_push_tx (JDict []))]; log := []; cache := ∅ |}).
Proof.
  split.
  - destruct (create_transaction_cases (JDict []) Bench.good Bench.world0)
      as (_ & H & _).
    rewrite (H "bundle rejected"); reflexivity.
  - destruct (create_transaction_cases (JDict []) MoreBench.mirror Bench.world0)
      as (H & _).
    rewrite (H {| status := JStr "SUCCESS" |}); reflexivity.
Defined.

Lemma coin_record_routes_one_call_witness :
  snd (@get_utxos pkg Bench.address Bench.good Bench.world0) = Bench.world_after_owned
  /\ @query_balance pkg "no separator" Bench.good Bench.world0
     = (inl (HTTPException 400 "Invalid Address"), Bench.world0).
Proof.
  destruct (@coin_record_routes_one_call pkg Bench.address Bench.good Bench.world0)
    as (H & _).
  destruct (@coin_record_routes_one_call pkg "no separator" Bench.good Bench.world0)
    as (_ & H').
  split.
  - destruct (H aabb) as (Hw & _); [vm_compute; reflexivity|].
    rewrite Hw. reflexivity.
  - destruct (H' (HTTPException 400 "Invalid Address")) as (_ & Hb);
      [vm_compute; reflexivity | exact Hb].
Defined.

Lemma balance_is_sum_of_utxos_witness :
  exists amounts,
    ["1750000000000"; "250"]%string = map str amounts /\
    1750000000250 = sum amounts.
Proof.
  apply (@balance_is_sum_of_utxos pkg Bench.address Bench.good Bench.world0
           [ {| parent_coin_info := "0x0a"; puzzle_hash := "0xaabb";
                amount := "1750000000000" |};
             {| parent_coin_info := "0x0c"; puzzle_hash := "0xaabb";
                amount := "250" |} ] 1750000000250).
  - vm_compute. reflexivity.
  - vm_compute. reflexivity.
Defined.

Lemma balance_order_independent_witness :
  fst (@query_balance pkg Bench.address Bench.good Bench.world0)
  = fst (@query_balance pkg Bench.address MoreBench.mirror Bench.world_after_owned).
Proof.
  apply (@balance_order_independent pkg Bench.address Bench.good MoreBench.mirror
           Bench.world0 Bench.world_after_owned aabb Bench.owned (reverse Bench.owned)).
  - vm_compute. reflexivity.
  - reflexivity.
  - vm_compute. reflexivity.
  - reflexivity.
  - symmetry. apply reverse_Permutation.
Defined.

Lemma coin_javascript_compat_inj_witness :
  coin_javascript_compat (MoreBench.big_coin 9007199254740992)
  <> coin_javascript_compat (MoreBench.big_coin 9007199254740993).
Proof.
  intros H. apply coin_javascript_compat_inj in H. discriminate H.
Defined.

Lemma list_nfts_requests_witness :
  rpc_trace (snd (@list_nfts pkg Bench.address (Bench.mainnet (inl (RpcError "timeout")))
                    Bench.world0))
  = [("0x01", Call_get_coin_records_by_hint aabb false 2181000);
     ("0x01", Call_get_puzzle_and_solution [Byte.x01] 2200001);
     ("0x01", Call_get_puzzle_and_solution [Byte.x02] 2200002);
     ("0x01", Call_get_puzzle_and_solution [Byte.x03] 2200003);
     ("0x01", Call_get_puzzle_and_solution [Byte.x04] 2200004);
     ("0x01", Call_get_puzzle_and_solution [Byte.x05] 2200005)].
Proof.
  destruct (@list_nfts_requests pkg Bench.address
              (Bench.mainnet (inl (RpcError "timeout"))) Bench.world0
              aabb 2181000 Bench.hinted) as [H _].
  - vm_compute. reflexivity.
  - vm_compute. reflexivity.
  - vm_compute. reflexivity.
  - repeat constructor; eexists; vm_compute; reflexivity.
  - rewrite H. vm_compute. reflexivity.
Defined.

Lemma list_nfts_early_failures_witness :
  @list_nfts pkg "txch1aabb" Bench.testnet Bench.world0
  = (inl (KeyError "testnet10"), Bench.world0)
  /\ exists e,
       @list_nfts pkg Bench.address MoreBench.bad_parent Bench.world0
       = (inl e,
          {| rpc_trace := [("0x04", Call_get_coin_records_by_hint aabb false 2181000)];
             log := []; cache := ∅ |}).
Proof.
  split.
  - destruct (@list_nfts_early_failures pkg "txch1aabb" Bench.testnet Bench.world0 aabb)
      as [H _]; [vm_compute; reflexivity|].
    apply H. vm_compute. reflexivity.
  - destruct (@list_nfts_early_failures pkg Bench.address MoreBench.bad_parent
                Bench.world0 aabb) as [_ H]; [vm_compute; reflexivity|].
    destruct (H 2181000 [Bench.record "0x01" 1 false 2200001;
                         Bench.record "zz" 1 false 2200002]) as (e & _ & He).
    + vm_compute. reflexivity.
    + reflexivity.
    + right. left. eexists. vm_compute. reflexivity.
    + exists e. exact He.
Defined.

Lemma list_nfts_exact_witness :
  fst (@list_nfts pkg Bench.address (Bench.mainnet (inr Bench.foreign_spend)) Bench.world0)
  = inr (VNfts [Bench.nft_dict; Bench.nft_dict; Bench.nft_dict; Bench.nft_dict]).
Proof.
  rewrite (@list_nfts_exact pkg Bench.address (Bench.mainnet (inr Bench.foreign_spend))
             Bench.world0 aabb 2181000 Bench.hinted
             [Bench.nft_spend; Bench.nft_spend; Bench.foreign_spend;
              Bench.nft_spend; Bench.nft_spend]).
  - vm_compute. reflexivity.
  - vm_compute. reflexivity.
  - vm_compute. reflexivity.
  - vm_compute. reflexivity.
  - repeat constructor; eexists; split; vm_compute; reflexivity.
  - repeat constructor; eexists; vm_compute; reflexivity.
Defined.

Lemma list_nfts_loop_first_failure_witness :
  @list_nfts_loop pkg aabb
    [(Bench.record "0x01" 1 false 2200001, Bench.nft_spend);
     (Bench.record "0x03" 1 false 2200003, Bench.truncated_spend);
     (Bench.record "0x04" 1 false 2200004, Bench.nft_spend)] []
  = inl MalformedEncoding.
Proof.
  apply (@list_nfts_loop_first_failure pkg aabb
           [(Bench.record "0x01" 1 false 2200001, Bench.nft_spend)]
           [(Bench.record "0x04" 1 false 2200004, Bench.nft_spend)]
           (Bench.record "0x03" 1 false 2200003, Bench.truncated_spend) []).
  - repeat constructor; eexists; vm_compute; reflexivity.
  - vm_compute. reflexivity.
Defined.

Lemma init_chains_registry_witness :
  (exists c, get_chain MoreBench.registry "0x02" Bench.world0 = (inr c, Bench.world0))
  /\ ~ (exists c, get_chain MoreBench.registry "0x03" Bench.world0 = (inr c, Bench.world0)).
Proof.
  destruct (@init_chains_registry StartupBench.startup
              [StartupBench.main_row; StartupBench.test_row] MoreBench.registry)
    as [_ H].
  - vm_compute. reflexivity.
  - split.
    + apply H. exists StartupBench.test_row. split; [right; left | reflexivity].
    + intros Hc. apply H in Hc as (row & Hin & Hrow).
      repeat (apply elem_of_cons in Hin as [->|Hin]; [discriminate Hrow|]).
      inversion Hin.
Defined.

Lemma init_chains_failures_witness :
  @init_chains StartupBench.startup
    [StartupBench.main_row; StartupBench.bare_row; StartupBench.test_row]
  = inl (ValueError "chian 3 has no full node rpc config").
Proof.
  destruct (@init_chains_failures StartupBench.startup [StartupBench.main_row]
              [StartupBench.test_row] StartupBench.bare_row
              {[ "0x01" := {| id := "0x01"; network_name := "mainnet";
                              network_prefix := "xch";
                              client := Bench.backend (inr Bench.nft_spend) |} ]})
    as (H & _).
  - vm_compute. reflexivity.
  - simpl app in H. rewrite H; reflexivity.
Defined.

Lemma init_chains_last_row_wins_witness :
  exists c,
    MoreBench.registry !! "0x02" = Some c /\
    network_name c = "testnet10" /\
    client c = Bench.empty_backend.
Proof.
  destruct (@init_chains_last_row_wins StartupBench.startup [StartupBench.main_row] []
              StartupBench.test_row MoreBench.registry)
    as (c & Hc & Hname & _ & _ & Hpath).
  - vm_compute. reflexivity.
  - constructor.
  - exists c. split; [exact Hc|]. split; [exact Hname|].
    specialize (Hpath "/root/.chia/testnet10" eq_refl eq_refl).
    simpl in Hpath. injection Hpath as <-. reflexivity.
Defined.

End MoreBenchRuns.


(** * The cached routes as they are served *)

Section CachedRoutes.

Local Open Scope list_scope.

Context {package : Package}.
Variable chains : gmap string Chain.






(** ** The cache holds answers of the routes only *)











End CachedRoutes.

(** ** The cached routes on the bench *)

Section CachedRouteRuns.

Local Open Scope list_scope.

Local Abbreviation pkg := Bench.package.
Local Abbreviation aabb := [Byte.xaa; Byte.xbb].
Local Abbreviation after_utxos :=
  (Bench.world_cached "utxos:xch1aabb" Bench.utxos_answer 110).






End CachedRouteRuns.
